(** * 3DGesture: the gesture-driven morphing particle engine

    A shallow embedding of the three core pieces of the application:

    - [Geometry]   : [generateParticlesFromImage] (utils/geometry), the
                     point-cloud builder and its resolve-once promise;
    - [HandTracker]: the per-frame classification of hand landmarks and the
                     5-frame gesture stabilizer of [predictWebcam];
    - [Experience] : the [useFrame] callback of [PhotoParticles], the
                     per-frame particle integrator;
    - [App]        : the state of the application and its handlers.

    Numbers.  A JavaScript number is modelled by [JS.num]: an exact rational
    or one of the three non-finite values.  Arithmetic follows IEEE-754 on
    the special values (Infinity - Infinity = NaN, 0 * Infinity = NaN,
    x / 0 = +-Infinity, comparisons with NaN are false) and is exact on
    finite values: rounding to binary64, and to binary32 when a value is
    stored in a [Float32Array], is not modelled, and -0 is identified with 0.
    The host functions [Math.sqrt], [Math.sin], [Math.cos] and [Math.random]
    are an interface ([JS.Host]); every theorem holds for all of its
    instances. *)

From Stdlib Require Import QArith Qround Qabs Lqa Lia Bool ZArith.
From stdpp Require Import base list strings.

Set Default Proof Using "Type".

(* ------------------------------------------------------------------------- *)
(** ** JavaScript numbers *)
(* ------------------------------------------------------------------------- *)

Module JS.

Inductive num : Type :=
| Fin (q : Q)
| PInf
| NInf
| NaN.

Definition Qltb (a b : Q) : bool := negb (Qle_bool b a).

Definition isFinite (x : num) : bool :=
  match x with Fin _ => true | _ => false end.

Definition isNaN (x : num) : bool :=
  match x with NaN => true | _ => false end.

Definition sign (x : num) : Z :=
  match x with
  | Fin q => Z.sgn (Qnum q)
  | PInf => 1
  | NInf => -1
  | NaN => 0
  end.

Definition inf_of_sign (s : Z) : num :=
  match s with
  | Z0 => NaN
  | Zpos _ => PInf
  | Zneg _ => NInf
  end.

Definition neg (x : num) : num :=
  match x with
  | Fin q => Fin (- q)
  | PInf => NInf
  | NInf => PInf
  | NaN => NaN
  end.

Definition add (x y : num) : num :=
  match x, y with
  | NaN, _ | _, NaN => NaN
  | Fin a, Fin b => Fin (a + b)
  | PInf, NInf | NInf, PInf => NaN
  | PInf, _ | _, PInf => PInf
  | NInf, _ | _, NInf => NInf
  end.

Definition sub (x y : num) : num := add x (neg y).

Definition mul (x y : num) : num :=
  match x, y with
  | NaN, _ | _, NaN => NaN
  | Fin a, Fin b => Fin (a * b)
  | _, _ => inf_of_sign (sign x * sign y)
  end.

Definition div (x y : num) : num :=
  match x, y with
  | NaN, _ | _, NaN => NaN
  | Fin a, Fin b => if Qeq_bool b 0 then inf_of_sign (sign x) else Fin (a / b)
  | Fin _, _ => Fin 0
  | _, Fin b => if Qeq_bool b 0 then x else inf_of_sign (sign x * sign y)
  | _, _ => NaN
  end.

(** [x < y] and [x <= y]; [x > y] is [lt y x], [x >= y] is [le y x].  Every
    comparison with NaN is false. *)
Definition lt (x y : num) : bool :=
  match x, y with
  | NaN, _ | _, NaN => false
  | Fin a, Fin b => Qltb a b
  | PInf, _ => false
  | _, PInf => true
  | _, NInf => false
  | NInf, _ => true
  end.

Definition le (x y : num) : bool :=
  match x, y with
  | NaN, _ | _, NaN => false
  | Fin a, Fin b => Qle_bool a b
  | _, PInf => true
  | PInf, _ => false
  | NInf, _ => true
  | _, NInf => false
  end.

Definition gt (x y : num) : bool := lt y x.
Definition ge (x y : num) : bool := le y x.

(** Two numbers that denote the same value: the same rational, or the same
    non-finite value. *)
Definition equiv (x y : num) : Prop :=
  match x, y with
  | Fin a, Fin b => a == b
  | PInf, PInf | NInf, NInf | NaN, NaN => True
  | _, _ => False
  end.

Definition of_Z (z : Z) : num := Fin (inject_Z z).
Definition of_nat (n : nat) : num := of_Z (Z.of_nat n).

(** [Math.min], [Math.abs], [Math.floor] and the constant [Math.PI]. *)
Definition Math_min (x y : num) : num :=
  match x, y with
  | NaN, _ | _, NaN => NaN
  | _, _ => if lt y x then y else x
  end.

Definition Math_abs (x : num) : num :=
  match x with
  | Fin q => Fin (Qabs q)
  | PInf | NInf => PInf
  | NaN => NaN
  end.

Definition Math_floor (x : num) : num :=
  match x with
  | Fin q => of_Z (Qfloor q)
  | _ => x
  end.

Definition Math_PI : num := Fin 3.141592653589793.

(** The remainder operator [x % y]: the result has the sign of the dividend. *)
Definition Qtrunc (q : Q) : Z :=
  if Qle_bool 0 q then Qfloor q else Qceiling q.

Definition rem (x y : num) : num :=
  match x, y with
  | NaN, _ | _, NaN => NaN
  | PInf, _ | NInf, _ => NaN
  | Fin a, Fin b =>
      if Qeq_bool b 0 then NaN else Fin (a - b * inject_Z (Qtrunc (a / b)))
  | Fin _, _ => x
  end.

(** The part of the host environment the program calls.  [Math.random] is a
    stream of draws: the [n]-th call since the start returns [rnd n]. *)
Class Host : Type := {
  Math_sqrt : num -> num;
  Math_sin : num -> num;
  Math_cos : num -> num;
  rnd : nat -> Q;
}.

(** A computation that may call [Math.random]: it is given the number of draws
    made so far and returns the number made after it. *)
Definition Rand (A : Type) : Type := nat -> A * nat.

Definition ret {A} (a : A) : Rand A := fun n => (a, n).

Definition bind {A B} (m : Rand A) (k : A -> Rand B) : Rand B :=
  fun n => let (a, n') := m n in k a n'.

Definition Math_random `{Host} : Rand num := fun n => (Fin (rnd n), S n).

(** Typed arrays.  Reading outside the array yields [undefined], which is NaN
    in every arithmetic use the program makes of it; writing outside the
    array is ignored.  An index that is not a natural number is outside. *)
Definition get (a : list num) (i : nat) : num := default NaN (a !! i).

Definition set (a : list num) (i : nat) (v : num) : list num := <[i:=v]> a.

Definition index_of (x : num) : option nat :=
  match x with
  | Fin q =>
      if Qeq_bool q (inject_Z (Qfloor q)) && (0 <=? Qfloor q)%Z
      then Some (Z.to_nat (Qfloor q)) else None
  | _ => None
  end.

(** [new Float32Array(len)]: [len] is truncated to an integer (NaN counts as
    0); a negative or infinite length throws a RangeError ([None]). *)
Definition Float32Array_new (len : num) : option (list num) :=
  match len with
  | Fin q => if (0 <=? Qtrunc q)%Z then Some (replicate (Z.to_nat (Qtrunc q)) (Fin 0)) else None
  | NaN => Some []
  | _ => None
  end.

(** The number of iterations of [for (let i = 0; i < bound; i++)].  The loop
    does not end when [bound] is Infinity; the program only reaches its loops
    after an allocation that throws for such a bound. *)
Definition iterations (bound : num) : nat :=
  match bound with
  | Fin q => Z.to_nat (Qceiling q)
  | _ => 0%nat
  end.

(** [for (let i = from; i < from + n; i++) body]. *)
Fixpoint for_loop {S} (from n : nat) (body : nat -> S -> Rand S) (s : S) : Rand S :=
  match n with
  | O => ret s
  | Datatypes.S n => bind (body from s) (for_loop (Datatypes.S from) n body)
  end.

End JS.

Notation "'do' x <- m ; k" := (JS.bind m (fun x => k))
  (at level 10, x name, m at level 100, k at level 200, only parsing).
Notation "'do' ' p <- m ; k" := (JS.bind m (fun p => k))
  (at level 10, p pattern, m at level 100, k at level 200, only parsing).

(* ------------------------------------------------------------------------- *)
(** ** three.js MathUtils *)
(* ------------------------------------------------------------------------- *)

(** The two functions of [THREE.MathUtils] the program calls, as three.js
    defines them: [lerp(x, y, t) = (1 - t) * x + t * y], and [smoothstep]
    clamped outside [min, max]. *)
Module MathUtils.
Import JS.

Definition lerp (x y t : num) : num :=
  add (mul (sub (Fin 1) t) x) (mul t y).

Definition smoothstep (x min max : num) : num :=
  if le x min then Fin 0
  else if ge x max then Fin 1
  else
    let x := div (sub x min) (sub max min) in
    mul (mul x x) (sub (Fin 3) (mul (Fin 2) x)).

End MathUtils.

(* ------------------------------------------------------------------------- *)
(** ** types.ts *)
(* ------------------------------------------------------------------------- *)

Inductive GestureType : Type :=
| NONE
| OPEN_PALM
| CLOSED_FIST
| PINCH.

#[global] Instance GestureType_eq_dec : EqDecision GestureType.
Proof. solve_decision. Defined.

Record HandData : Type := {
  gesture : GestureType;
  x : JS.num;
  y : JS.num;
  isDetected : bool;
}.

Record PointCloudData : Type := {
  positions : list JS.num;
  targetTree : list JS.num;
  targetCloud : list JS.num;
  colors : list JS.num;
  sizes : list JS.num;
}.

(* ------------------------------------------------------------------------- *)
(** ** components/HandTracker: [predictWebcam] *)
(* ------------------------------------------------------------------------- *)

Module HandTracker.
Import JS.

(** One normalized landmark of the hand-landmark detector. *)
Record Landmark : Type := { lx : num; ly : num; lz : num }.

Definition STABILITY_FRAMES : nat := 5.

(** The two refs of the stabilizer. *)
Record Stabilizer : Type := {
  gestureHistory : list GestureType;
  lastConfirmedGesture : GestureType;
}.

Definition initial : Stabilizer :=
  {| gestureHistory := []; lastConfirmedGesture := NONE |}.

Definition tips : list nat := [4; 8; 12; 16; 20]%nat.

Section Classify.
Context `{Host}.

(** [tipDistances]: the distance of one tip from the wrist.  Reading a field
    of a landmark that is not there throws ([None]). *)
Definition tipDistance (landmarks : list Landmark) (wrist : Landmark) (idx : nat)
  : option num :=
  l ← landmarks !! idx;
  let dx := sub (lx l) (lx wrist) in
  let dy := sub (ly l) (ly wrist) in
  let dz := sub (lz l) (lz wrist) in
  Some (Math_sqrt (add (add (mul dx dx) (mul dy dy)) (mul dz dz))).

(** The raw, single-frame result: [(rawGesture, handX, handY, isDetected)].
    [hands] is [result.landmarks]. *)
Definition classify (hands : list (list Landmark))
  : option (GestureType * num * num * bool) :=
  match hands with
  | landmarks :: _ =>
      l0 ← landmarks !! 0%nat;
      let handX := sub (Fin 1) (lx l0) in
      let handY := ly l0 in
      let wrist := l0 in
      tipDistances ← mapM (tipDistance landmarks wrist) tips;
      let avgDist := div (foldl add (Fin 0) tipDistances) (Fin 5) in
      l4 ← landmarks !! 4%nat;
      l8 ← landmarks !! 8%nat;
      let dxP := sub (lx l4) (lx l8) in
      let dyP := sub (ly l4) (ly l8) in
      let dzP := sub (lz l4) (lz l8) in
      let pinchDist :=
        Math_sqrt (add (add (mul dxP dxP) (mul dyP dyP)) (mul dzP dzP)) in
      let rawGesture :=
        if lt pinchDist (Fin 0.05) then PINCH
        else if lt avgDist (Fin 0.25) then CLOSED_FIST
        else OPEN_PALM in
      Some (rawGesture, handX, handY, true)
  | [] => Some (NONE, Fin 0.5, Fin 0.5, false)
  end.

End Classify.

(** [history.slice(-n)]: the last [n] entries, all of them when there are
    fewer. *)
Definition slice_last {A} (n : nat) (l : list A) : list A :=
  drop (length l - n) l.

Definition every {A} (p : A -> bool) (l : list A) : bool := forallb p l.

(** The two tests of the stabilizer, on the history after the push. *)
Definition allMatch (history : list GestureType) (rawGesture : GestureType) : bool :=
  bool_decide (length history = STABILITY_FRAMES)
  && every (fun g => bool_decide (g = rawGesture)) history.

Definition quickLost (history : list GestureType) (rawGesture : GestureType) : bool :=
  bool_decide (rawGesture = NONE)
  && every (fun g => bool_decide (g = NONE)) (slice_last 3 history).

(** [history.push(rawGesture)], then [history.shift()] when the history is
    longer than [STABILITY_FRAMES]. *)
Definition push (history : list GestureType) (rawGesture : GestureType)
  : list GestureType :=
  let history := history ++ [rawGesture] in
  if bool_decide (STABILITY_FRAMES < length history)%nat then tail history
  else history.

(** The stabilizer: push, evict the oldest entry, confirm. *)
Definition stabilize (s : Stabilizer) (rawGesture : GestureType) : Stabilizer :=
  let history := push (gestureHistory s) rawGesture in
  {| gestureHistory := history;
     lastConfirmedGesture :=
       if allMatch history rawGesture || quickLost history rawGesture
       then rawGesture else lastConfirmedGesture s |}.

(** One inference result: classify, stabilize, report through [onHandUpdate]. *)
Definition predictWebcam `{Host} (s : Stabilizer) (hands : list (list Landmark))
  : option (Stabilizer * HandData) :=
  '(rawGesture, handX, handY, detected) ← classify hands;
  let s' := stabilize s rawGesture in
  Some (s', {| gesture := lastConfirmedGesture s'; x := handX; y := handY;
               isDetected := detected |}).

(** The states the stabilizer takes during a session. *)
Definition feed (s : Stabilizer) (raws : list GestureType) : Stabilizer :=
  foldl stabilize s raws.

Definition reachable (s : Stabilizer) : Prop :=
  exists raws, s = feed initial raws.

(** The confirmed gesture after each update of a run. *)
Fixpoint confirmed_trace (s : Stabilizer) (raws : list GestureType)
  : list GestureType :=
  match raws with
  | [] => []
  | r :: raws => let s' := stabilize s r in
                 lastConfirmedGesture s' :: confirmed_trace s' raws
  end.

End HandTracker.

(* ------------------------------------------------------------------------- *)
(** ** components/Experience: the [useFrame] callback of [PhotoParticles] *)
(* ------------------------------------------------------------------------- *)

Module Experience.
Import JS MathUtils.

(** The physics refs.  Only the x and y components of [swayVector] are ever
    read or written. *)
Record Physics : Type := {
  transitionProgress : num;
  swayX : num;
  swayY : num;
  vortexAngle : num;
  velocity : num;
  prevHandX : num;
  prevHandY : num;
  wasDetected : bool;
}.

Definition initial : Physics :=
  {| transitionProgress := Fin 0; swayX := Fin 0; swayY := Fin 0;
     vortexAngle := Fin 0; velocity := Fin 0;
     prevHandX := Fin 0.5; prevHandY := Fin 0.5; wasDetected := false |}.

(** The three working buffers handed to the geometry: clones of the data. *)
Record Buffers : Type := {
  workingPositions : list num;
  workingColors : list num;
  workingSizes : list num;
}.

Definition clone (data : PointCloudData) : Buffers :=
  {| workingPositions := positions data;
     workingColors := colors data;
     workingSizes := sizes data |}.

(** What one call of the callback receives: [delta], [state.clock.elapsedTime],
    [handDataRef.current] and the [currentGesture] prop. *)
Record Frame : Type := {
  delta : num;
  time : num;
  hand : HandData;
  currentGesture : GestureType;
}.

Definition safeDelta (f : Frame) : num := Math_min (delta f) (Fin 0.05).

Definition targetT (f : Frame) : num :=
  if bool_decide (currentGesture f = OPEN_PALM) then Fin 1 else Fin 0.

(** Section 2 of the callback: the transition progress.  The interpolation is
    exact here; in binary64 the result can differ from it in the last place,
    which leaves it within [0, 1] but can take it a last place back from the
    target. *)
Definition progress_lerp (tp : num) (f : Frame) : num :=
  let lerpSpeed := if gt (targetT f) (Fin 0.5) then Fin 1.5 else Fin 2.5 in
  lerp tp (targetT f) (mul (safeDelta f) lerpSpeed).

Definition next_progress (tp : num) (f : Frame) : num :=
  let tp := progress_lerp tp f in
  if lt tp (Fin 0.001) then Fin 0 else tp.

Section Frame.
Context `{Host}.

(** Section 3: the target velocity from the motion of the hand. *)
Definition targetVelocity (st : Physics) (f : Frame) : num :=
  if isDetected (hand f) then
    if negb (wasDetected st) then Fin 0
    else
      let dx := sub (x (hand f)) (prevHandX st) in
      let dy := sub (y (hand f)) (prevHandY st) in
      let dist := Math_sqrt (add (mul dx dx) (mul dy dy)) in
      let handSpeed := div dist (safeDelta f) in
      let handSpeed := Math_min handSpeed (Fin 5.0) in
      mul handSpeed (Fin 1.5)
  else Fin 0.

Definition velocity_lerp (st : Physics) (f : Frame) : num :=
  let tv := targetVelocity st f in
  let velocityLerpFactor := if lt tv (velocity st) then Fin 4.0 else Fin 2.0 in
  lerp (velocity st) tv (mul (safeDelta f) velocityLerpFactor).

Definition next_velocity (st : Physics) (f : Frame) : num :=
  let v := velocity_lerp st f in
  let v := if lt v (Fin 0.01) then Fin 0 else v in
  let v := if gt v (Fin 3.0) then Fin 3.0 else v in
  if isNaN v then Fin 0 else v.

(** Sections 1 to 4: the refs after the frame-level part of one call.  The
    vortex angle and the sway are exact here; the code rounds each product
    and sum to binary64, so its values can differ from these in the last
    place (3 * 0.05 is 0.15000000000000002 there). *)
Definition advance (st : Physics) (f : Frame) : Physics :=
  let t := next_progress (transitionProgress st) f in
  let v := next_velocity st f in
  let detected := isDetected (hand f) in
  let targetSwayX :=
    if detected && gt t (Fin 0.1) then mul (sub (x (hand f)) (Fin 0.5)) (Fin 25)
    else Fin 0 in
  let targetSwayY :=
    if detected && gt t (Fin 0.1)
    then mul (neg (sub (y (hand f)) (Fin 0.5))) (Fin 25)
    else Fin 0 in
  {| transitionProgress := t;
     swayX := lerp (swayX st) targetSwayX (mul (safeDelta f) (Fin 3));
     swayY := lerp (swayY st) targetSwayY (mul (safeDelta f) (Fin 3));
     vortexAngle := add (vortexAngle st) (mul v (safeDelta f));
     velocity := v;
     prevHandX := if detected then x (hand f) else prevHandX st;
     prevHandY := if detected then y (hand f) else prevHandY st;
     wasDetected := detected |}.

(** The safety bound of the particle loop, for one axis: [p] is the computed
    coordinate, [d] the coordinate of the image target. *)
Definition bound (p d : num) : num :=
  if negb (isFinite p) || gt (Math_abs p) (Fin 200) then d else p.

(** Steps 1 to 4 of the loop body: the coordinates computed for particle [i],
    before the safety bounds. *)
Definition particle_motion (data : PointCloudData) (st : Physics)
    (smoothT time : num) (i : nat) : Rand (num * num * num) :=
  let i3 := (i * 3)%nat in
  let dx := get (targetTree data) i3 in
  let dy := get (targetTree data) (i3 + 1) in
  let dz := get (targetTree data) (i3 + 2) in
  let cx := get (targetCloud data) i3 in
  let cy := get (targetCloud data) (i3 + 1) in
  let cz := get (targetCloud data) (i3 + 2) in
  let px := add dx (mul (sub cx dx) smoothT) in
  let py := add dy (mul (sub cy dy) smoothT) in
  let pz := add dz (mul (sub cz dz) smoothT) in
  if gt smoothT (Fin 0.01) then
    let px := add px (mul (swayX st) smoothT) in
    let py := add py (mul (swayY st) smoothT) in
    let '(px, pz) :=
      if gt (velocity st) (Fin 0.01) then
        let dist := Math_sqrt (add (mul px px) (mul pz pz)) in
        let angle := sub (vortexAngle st) (mul dist (Fin 0.05)) in
        let cosA := Math_cos angle in
        let sinA := Math_sin angle in
        let rx := sub (mul px cosA) (mul pz sinA) in
        let rz := add (mul px sinA) (mul pz cosA) in
        (add px (mul (mul (sub rx px) smoothT) (Fin 0.8)),
         add pz (mul (mul (sub rz pz) smoothT) (Fin 0.8)))
      else (px, pz) in
    let jitterAmt := mul (mul (velocity st) (Fin 0.3)) smoothT in
    if gt jitterAmt (Fin 0.01) then
      do r1 <- Math_random;
      do r2 <- Math_random;
      do r3 <- Math_random;
      ret (add px (mul (sub r1 (Fin 0.5)) jitterAmt),
           add py (mul (sub r2 (Fin 0.5)) jitterAmt),
           add pz (mul (sub r3 (Fin 0.5)) jitterAmt))
    else ret (px, py, pz)
  else
    let breath :=
      mul (Math_sin (add (mul time (Fin 1.5)) (mul dx (Fin 0.5)))) (Fin 0.05) in
    ret (px, py, add pz breath).

(** The safety bounds: the position written for particle [i]. *)
Definition particle_position (data : PointCloudData) (st : Physics)
    (smoothT time : num) (i : nat) : Rand (num * num * num) :=
  let i3 := (i * 3)%nat in
  let dx := get (targetTree data) i3 in
  let dy := get (targetTree data) (i3 + 1) in
  let dz := get (targetTree data) (i3 + 2) in
  do '(px, py, pz) <- particle_motion data st smoothT time i;
  ret (bound px dx, bound py dy, bound pz dz).

(** Step 6: the color written for particle [i], from [data.colors]. *)
Definition particle_color (data : PointCloudData) (st : Physics)
    (smoothT : num) (i : nat) : num * num * num :=
  let i3 := (i * 3)%nat in
  let r := get (colors data) i3 in
  let g := get (colors data) (i3 + 1) in
  let b := get (colors data) (i3 + 2) in
  let isSparkle := bool_decide (i `mod` 10 = 0)%nat in
  if isSparkle && gt smoothT (Fin 0.1) && gt (velocity st) (Fin 0.1) then
    let boost := mul (velocity st) smoothT in
    let boost := Math_min boost (Fin 1.2) in
    (add r boost, add g boost, add b boost)
  else (r, g, b).

Definition particle_size (data : PointCloudData) (st : Physics)
    (smoothT : num) (i : nat) : num :=
  let s := get (sizes data) i in
  if gt smoothT (Fin 0.1) && gt (velocity st) (Fin 0.1)
  then mul s (add (Fin 1) (mul (velocity st) (Fin 0.5)))
  else s.

(** [attr.setXYZ(i, x, y, z)] and [attr.setX(i, x)] of a buffer attribute. *)
Definition setXYZ (a : list num) (i : nat) (v : num * num * num) : list num :=
  let '(vx, vy, vz) := v in
  set (set (set a (i * 3) vx) (i * 3 + 1) vy) (i * 3 + 2) vz.

Definition setX (a : list num) (i : nat) (v : num) : list num := set a i v.

(** The body of the particle loop. *)
Definition particle (data : PointCloudData) (st : Physics) (smoothT time : num)
    (i : nat) (bufs : Buffers) : Rand Buffers :=
  do p <- particle_position data st smoothT time i;
  ret {| workingPositions := setXYZ (workingPositions bufs) i p;
         workingColors :=
           setXYZ (workingColors bufs) i (particle_color data st smoothT i);
         workingSizes :=
           setX (workingSizes bufs) i (particle_size data st smoothT i) |}.

(** One call of the callback, with the data loaded and the points mounted. *)
Definition useFrame (data : PointCloudData) (st : Physics) (bufs : Buffers)
    (f : Frame) : Rand (Physics * Buffers) :=
  let st := advance st f in
  let count := div (of_nat (length (positions data))) (Fin 3) in
  let smoothT := smoothstep (transitionProgress st) (Fin 0) (Fin 1) in
  do bufs <- for_loop 0 (iterations count) (particle data st smoothT (time f)) bufs;
  ret (st, bufs).

(** A run of calls on one point cloud: the refs and the buffers after each
    call, starting from [st] and [bufs]. *)
Fixpoint run (data : PointCloudData) (st : Physics) (bufs : Buffers)
    (frames : list Frame) : Rand (list (Physics * Buffers)) :=
  match frames with
  | [] => ret []
  | f :: frames =>
      do '(st', bufs') <- useFrame data st bufs f;
      do rest <- run data st' bufs' frames;
      ret ((st', bufs') :: rest)
  end.

End Frame.

End Experience.

(* ------------------------------------------------------------------------- *)
(** ** App: the state of the application and its handlers *)
(* ------------------------------------------------------------------------- *)

Module App.

Inductive CameraStatus : Type :=
| loading
| active
| error
| idle.

#[global] Instance CameraStatus_eq_dec : EqDecision CameraStatus.
Proof. solve_decision. Defined.

Record State : Type := {
  currentGesture : GestureType;
  isHandDetected : bool;
  imageSource : string;
  handDataRef : HandData;
  cameraStatus : CameraStatus;
  cameraError : option string;
  shouldStartCamera : bool;
}.

(** The state on mount; [url] is [TARGET_IMAGE_URL]. *)
Definition initial (url : string) : State :=
  {| currentGesture := NONE; isHandDetected := false; imageSource := url;
     handDataRef := {| gesture := NONE; x := JS.Fin 0.5; y := JS.Fin 0.5;
                       isDetected := false |};
     cameraStatus := idle; cameraError := None; shouldStartCamera := false |}.

Definition handleHandUpdate (st : State) (data : HandData) : State :=
  {| currentGesture :=
       if bool_decide (currentGesture st ≠ gesture data) then gesture data
       else currentGesture st;
     isHandDetected :=
       if bool_decide (isHandDetected st ≠ isDetected data) then isDetected data
       else isHandDetected st;
     imageSource := imageSource st;
     handDataRef := data;
     cameraStatus := cameraStatus st;
     cameraError := cameraError st;
     shouldStartCamera := shouldStartCamera st |}.

(** [message] is [None] when the argument is left out. *)
Definition handleCameraStatusChange (st : State) (status : CameraStatus)
    (message : option string) : State :=
  {| currentGesture := currentGesture st;
     isHandDetected := isHandDetected st;
     imageSource := imageSource st;
     handDataRef := handDataRef st;
     cameraStatus := status;
     cameraError :=
       if bool_decide (status = error) then message else cameraError st;
     shouldStartCamera :=
       if bool_decide (status = error) then false else shouldStartCamera st |}.

Definition triggerCameraStart (st : State) : State :=
  {| currentGesture := currentGesture st;
     isHandDetected := isHandDetected st;
     imageSource := imageSource st;
     handDataRef := handDataRef st;
     cameraStatus := cameraStatus st;
     cameraError := cameraError st;
     shouldStartCamera := true |}.

Definition triggerCameraStop (st : State) : State :=
  {| currentGesture := NONE;
     isHandDetected := false;
     imageSource := imageSource st;
     handDataRef := {| gesture := NONE; x := JS.Fin 0.5; y := JS.Fin 0.5;
                       isDetected := false |};
     cameraStatus := idle;
     cameraError := cameraError st;
     shouldStartCamera := false |}.

(** [objectUrl] is what [URL.createObjectURL(file)] returned. *)
Definition handleImageUpload (st : State) (objectUrl : string) : State :=
  {| currentGesture := currentGesture st;
     isHandDetected := isHandDetected st;
     imageSource := objectUrl;
     handDataRef := handDataRef st;
     cameraStatus := cameraStatus st;
     cameraError := cameraError st;
     shouldStartCamera := shouldStartCamera st |}.

(** What can happen to the application: a report of the hand tracker, a
    status change of the camera, or a button of the overlay. *)
Inductive Event : Type :=
| HandUpdate (data : HandData)
| CameraStatusChange (status : CameraStatus) (message : option string)
| StartCamera
| StopCamera
| UploadImage (objectUrl : string).

Definition handle (st : State) (e : Event) : State :=
  match e with
  | HandUpdate data => handleHandUpdate st data
  | CameraStatusChange status message => handleCameraStatusChange st status message
  | StartCamera => triggerCameraStart st
  | StopCamera => triggerCameraStop st
  | UploadImage objectUrl => handleImageUpload st objectUrl
  end.

Definition after (st : State) (events : list Event) : State :=
  foldl handle st events.

End App.

(* ------------------------------------------------------------------------- *)
(** ** utils/geometry: [generateParticlesFromImage] *)
(* ------------------------------------------------------------------------- *)

Module Geometry.
Import JS.

(** [CONFIG.PARTICLE_COUNT] of constants.ts. *)
Definition PARTICLE_COUNT : num := Fin 25000.

(** A 2d context of the canvas, as far as the builder uses it: whether
    [drawImage] returns, and what [getImageData] yields ([None] when it throws,
    as it does on a tainted canvas; otherwise the bytes of the
    [Uint8ClampedArray]). *)
Record Context2D : Type := {
  drawImage_returns : bool;
  getImageData : option (list nat);
}.

(** [imgData[k]] for a number [k]: [undefined], NaN in arithmetic and false in
    a comparison, outside the array. *)
Definition pixel (imgData : list nat) (k : num) : num :=
  match index_of k with
  | Some i => match imgData !! i with Some b => of_nat b | None => NaN end
  | None => NaN
  end.

Definition sanitize (v : num) : num := if isFinite v then v else Fin 0.

Definition sanitize_color (v : num) : num := if isFinite v then v else Fin 1.

(** The five arrays under construction. *)
Record Arrays : Type := {
  a_positions : list num;
  a_targetTree : list num;
  a_targetCloud : list num;
  a_colors : list num;
  a_sizes : list num;
}.

Definition to_data (a : Arrays) : PointCloudData :=
  {| positions := a_positions a; targetTree := a_targetTree a;
     targetCloud := a_targetCloud a; colors := a_colors a; sizes := a_sizes a |}.

Section Build.
Context `{Host}.

Definition generateGalaxyShape : Rand (num * num * num) :=
  do r1 <- Math_random;
  let angle := mul (mul r1 Math_PI) (Fin 2) in
  do r2 <- Math_random;
  let radius := add (mul r2 (Fin 30)) (Fin 5) in
  let spiralOffset := mul radius (Fin 0.5) in
  do r3 <- Math_random;
  let armOffset :=
    div (mul (Math_floor (mul r3 (Fin 3))) (mul Math_PI (Fin 2))) (Fin 3) in
  let finalAngle := add (add angle spiralOffset) armOffset in
  let gx := mul (Math_cos finalAngle) radius in
  let gz := mul (Math_sin finalAngle) radius in
  do r4 <- Math_random;
  let gy := mul (sub r4 (Fin 0.5)) (add (Fin 10) (mul radius (Fin 0.2))) in
  ret (gx, gy, gz).

(** Part 1 of the loop body when pixel data is there: the image target, the
    color and the size of particle [i]. *)
Definition image_particle (width height SCALE_X SCALE_Y : num)
    (imgData : list nat) (i : nat)
  : Rand (num * num * num * (num * num * num) * num) :=
  let col := rem (of_nat i) width in
  let row := Math_floor (div (of_nat i) width) in
  let pixelI := mul (add (mul row width) col) (Fin 4) in
  let r := div (pixel imgData pixelI) (Fin 255) in
  let g := div (pixel imgData (add pixelI (Fin 1))) (Fin 255) in
  let b := div (pixel imgData (add pixelI (Fin 2))) (Fin 255) in
  let brightness := div (add (add r g) b) (Fin 3) in
  let dx := mul (sub (div col width) (Fin 0.5)) SCALE_X in
  let dy := mul (sub (Fin 0.5) (div row height)) SCALE_Y in
  let dz := mul brightness (Fin 3.0) in
  do size <-
    (if lt (pixel imgData (add pixelI (Fin 3))) (Fin 50) then ret (Fin 0)
     else do r1 <- Math_random; ret (add (mul r1 (Fin 0.4)) (Fin 0.1)));
  ret (dx, dy, dz, (r, g, b), size).

(** Part 1 of the loop body without pixel data: the procedural shape. *)
Definition fallback_particle (SCALE_Y : num)
  : Rand (num * num * num * (num * num * num) * num) :=
  do r1 <- Math_random;
  let theta := mul (mul r1 Math_PI) (Fin 2) in
  do r2 <- Math_random;
  let h := sub (mul r2 SCALE_Y) (div SCALE_Y (Fin 2)) in
  let taper := add (mul (Math_cos (mul h (Fin 0.3))) (Fin 1.5)) (Fin 2) in
  let dx := mul (Math_cos theta) taper in
  let dy := h in
  let dz := mul (Math_sin theta) taper in
  let r := Fin 1.0 in
  do r3 <- Math_random;
  let g := add (Fin 0.7) (mul r3 (Fin 0.3)) in
  do r4 <- Math_random;
  let b := add (Fin 0.8) (mul r4 (Fin 0.2)) in
  ret (dx, dy, dz, (r, g, b), Fin 0.3).

(** Part 1 of the loop body: [if (imgData && width > 0) ... else ...].
    [imgData] is [None] for null. *)
Definition shape_particle (width height SCALE_X SCALE_Y : num)
    (imgData : option (list nat)) (i : nat)
  : Rand (num * num * num * (num * num * num) * num) :=
  match imgData with
  | Some px =>
      if gt width (Fin 0) then image_particle width height SCALE_X SCALE_Y px i
      else fallback_particle SCALE_Y
  | None => fallback_particle SCALE_Y
  end.

(** The body of the loop of [generateAll]. *)
Definition fill (width height SCALE_X SCALE_Y : num)
    (imgData : option (list nat)) (i : nat) (a : Arrays) : Rand Arrays :=
  let i3 := (i * 3)%nat in
  do '(dx, dy, dz, (r, g, b), size) <-
    shape_particle width height SCALE_X SCALE_Y imgData i;
  let sizes := set (a_sizes a) i size in
  let dx := sanitize dx in
  let dy := sanitize dy in
  let dz := sanitize dz in
  let targetTree := set (a_targetTree a) i3 dx in
  let targetTree := set targetTree (i3 + 1) (add dy (Fin 2)) in
  let targetTree := set targetTree (i3 + 2) dz in
  let colors := set (a_colors a) i3 (sanitize_color r) in
  let colors := set colors (i3 + 1) (sanitize_color g) in
  let colors := set colors (i3 + 2) (sanitize_color b) in
  do '(gx, gy, gz) <- generateGalaxyShape;
  let targetCloud := set (a_targetCloud a) i3 (sanitize gx) in
  let targetCloud := set targetCloud (i3 + 1) (sanitize gy) in
  let targetCloud := set targetCloud (i3 + 2) (sanitize gz) in
  let positions := set (a_positions a) i3 (get targetTree i3) in
  let positions := set positions (i3 + 1) (get targetTree (i3 + 1)) in
  let positions := set positions (i3 + 2) (get targetTree (i3 + 2)) in
  ret {| a_positions := positions; a_targetTree := targetTree;
         a_targetCloud := targetCloud; a_colors := colors; a_sizes := sizes |}.

Definition validCount (width height : num) : num :=
  if gt width (Fin 0) && gt height (Fin 0) then mul width height
  else PARTICLE_COUNT.

(** The five allocations at the head of [generateAll]; [None] when one of
    them throws. *)
Definition allocate (count : num) : option Arrays :=
  positions ← Float32Array_new (mul count (Fin 3));
  targetTree ← Float32Array_new (mul count (Fin 3));
  targetCloud ← Float32Array_new (mul count (Fin 3));
  colors ← Float32Array_new (mul count (Fin 3));
  sizes ← Float32Array_new count;
  Some {| a_positions := positions; a_targetTree := targetTree;
          a_targetCloud := targetCloud; a_colors := colors; a_sizes := sizes |}.

(** [imgData]: the pixels when there is a context, [width > 0] and
    [getImageData] does not throw; null otherwise. *)
Definition read_pixels (width : num) (ctx : option Context2D)
  : option (list nat) :=
  match ctx with
  | Some c => if gt width (Fin 0) then getImageData c else None
  | None => None
  end.

(** [generateAll(width, height, ctx)]; [None] when it throws. *)
Definition generateAll (width height : num) (ctx : option Context2D)
  : Rand (option PointCloudData) :=
  let count := validCount width height in
  match allocate count with
  | None => ret None
  | Some arrays =>
      let imgData := read_pixels width ctx in
      let ASPECT := if gt width (Fin 0) then div width height else Fin 0.6 in
      let SCALE_Y := Fin 18 in
      let SCALE_X := mul SCALE_Y ASPECT in
      do arrays <-
        for_loop 0 (iterations count)
          (fill width height SCALE_X SCALE_Y imgData) arrays;
      ret (Some (to_data arrays))
  end.

(** The promise and the guard of [safeResolve].  [resolveCalls] counts the
    calls of [resolve]. *)
Inductive Settled : Type :=
| Pending
| Resolved (data : PointCloudData)
| Rejected.

Record Promise : Type := {
  hasResolved : bool;
  settled : Settled;
  resolveCalls : nat;
}.

Definition pending : Promise :=
  {| hasResolved := false; settled := Pending; resolveCalls := 0 |}.

Definition resolve (p : Promise) (data : PointCloudData) : Promise :=
  {| hasResolved := hasResolved p;
     settled := match settled p with Pending => Resolved data | s => s end;
     resolveCalls := S (resolveCalls p) |}.

Definition safeResolve (p : Promise) (data : PointCloudData) : Promise :=
  if hasResolved p then p
  else resolve {| hasResolved := true; settled := settled p;
                  resolveCalls := resolveCalls p |} data.

(** [safeResolve(generateAll(0, 0))]; an exception leaves the handler. *)
Definition resolve_fallback (p : Promise) : Rand Promise :=
  do r <- generateAll (Fin 0) (Fin 0) None;
  ret (match r with Some data => safeResolve p data | None => p end).

(** The downsampling grid of [img.onload]. *)
Definition grid (img_width img_height : nat) : num * num :=
  let aspect := div (of_nat img_width) (of_nat img_height) in
  let totalPixels := PARTICLE_COUNT in
  let cols := Math_floor (Math_sqrt (mul totalPixels aspect)) in
  let rows := Math_floor (div totalPixels cols) in
  (cols, rows).

(** [img.onload], for an image of the given size; [ctx] is what
    [canvas.getContext('2d')] returns. *)
Definition onload (img_width img_height : nat) (ctx : option Context2D)
    (p : Promise) : Rand Promise :=
  match ctx with
  | None => resolve_fallback p
  | Some c =>
      let '(cols, rows) := grid img_width img_height in
      if drawImage_returns c then
        do r <- generateAll cols rows (Some c);
        match r with
        | Some data => ret (safeResolve p data)
        | None => resolve_fallback p
        end
      else resolve_fallback p
  end.

Definition onerror (p : Promise) : Rand Promise := resolve_fallback p.

Definition ontimeout (p : Promise) : Rand Promise :=
  if negb (hasResolved p) then resolve_fallback p else ret p.

(** The callbacks that may fire after the promise is created. *)
Inductive Event : Type :=
| Load (img_width img_height : nat) (ctx : option Context2D)
| Error
| Timeout.

Definition handle (p : Promise) (e : Event) : Rand Promise :=
  match e with
  | Load w h ctx => onload w h ctx p
  | Error => onerror p
  | Timeout => ontimeout p
  end.

(** The promise after the callbacks of [events] have run, in that order. *)
Fixpoint generateParticlesFromImage (events : list Event) (p : Promise)
  : Rand Promise :=
  match events with
  | [] => ret p
  | e :: events => do p' <- handle p e; generateParticlesFromImage events p'
  end.

End Build.

End Geometry.

(* ------------------------------------------------------------------------- *)
(** ** Definitions used to state the properties *)
(* ------------------------------------------------------------------------- *)

(** A computable instance of the host interface, used to evaluate the model on
    concrete inputs: a square root exact to nine decimals, the Taylor
    polynomials of degree 7 and 6 for sine and cosine, and a fixed stream of
    draws in [0, 1). *)
Module TestHost.
Import JS.

Definition Qsqrt (q : Q) : Q :=
  inject_Z (Z.sqrt (Qfloor (q * inject_Z (10 ^ 18)))) / inject_Z (10 ^ 9).

Definition sqrt (v : num) : num :=
  match v with
  | Fin q => if Qltb q 0 then NaN else Fin (Qred (Qsqrt q))
  | PInf => PInf
  | _ => NaN
  end.

Definition sin (v : num) : num :=
  match v with
  | Fin q =>
      Fin (Qred (q - q^3 / 6 + q^5 / 120 - q^7 / 5040))
  | _ => NaN
  end.

Definition cos (v : num) : num :=
  match v with
  | Fin q => Fin (Qred (1 - q^2 / 2 + q^4 / 24 - q^6 / 720))
  | _ => NaN
  end.

Definition draws (n : nat) : Q :=
  inject_Z ((Z.of_nat n * 7919 + 13) mod 1000) / 1000.

#[global] Instance host : Host :=
  {| Math_sqrt := sqrt; Math_sin := sin; Math_cos := cos; rnd := draws |}.

End TestHost.

(** The test host with its sine and cosine clamped to [-1, 1]. *)
Module BoundedHost.
Import JS.

Definition clamp (v : num) : num :=
  match v with
  | Fin q => if Qltb q (-1) then Fin (-1) else if Qltb 1 q then Fin 1 else Fin q
  | _ => NaN
  end.

Definition host : Host :=
  {| Math_sqrt := TestHost.sqrt;
     Math_sin := fun v => clamp (TestHost.sin v);
     Math_cos := fun v => clamp (TestHost.cos v);
     rnd := TestHost.draws |}.

End BoundedHost.

Module HandTrackerSpec.
Import JS HandTracker.

(** The raw sequence of the debounce property: 4 OPEN_PALM, 1 CLOSED_FIST,
    4 OPEN_PALM. *)
Definition flicker : list GestureType :=
  replicate 4 OPEN_PALM ++ [CLOSED_FIST] ++ replicate 4 OPEN_PALM.

(** The number of entries equal to [g] at the recent end of a history. *)
Fixpoint leading (g : GestureType) (l : list GestureType) : nat :=
  match l with
  | [] => 0
  | x :: l => if bool_decide (x = g) then S (leading g l) else 0
  end.

Definition trailing (g : GestureType) (l : list GestureType) : nat :=
  leading g (rev l).

(** Before the history is full, nothing but NONE has been confirmed. *)
Definition session_inv (s : Stabilizer) : Prop :=
  length (gestureHistory s) ≤ STABILITY_FRAMES
  ∧ (length (gestureHistory s) < STABILITY_FRAMES -> lastConfirmedGesture s = NONE).

(** The classification as the specification words it. *)
Definition euclid `{Host} (a b : Landmark) : num :=
  let dx := sub (lx a) (lx b) in
  let dy := sub (ly a) (ly b) in
  let dz := sub (lz a) (lz b) in
  Math_sqrt (add (add (mul dx dx) (mul dy dy)) (mul dz dz)).

Definition pinchDistance `{Host} (thumbTip indexTip : Landmark) : num :=
  euclid thumbTip indexTip.

Definition avgTipDistance `{Host} (wrist t1 t2 t3 t4 t5 : Landmark) : num :=
  div (add (euclid t1 wrist)
         (add (euclid t2 wrist)
            (add (euclid t3 wrist) (add (euclid t4 wrist) (euclid t5 wrist)))))
      (Fin 5).

Definition spec_gesture `{Host} (wrist thumbTip indexTip middleTip ringTip pinkyTip : Landmark)
  : GestureType :=
  if lt (pinchDistance thumbTip indexTip) (Fin 0.05) then PINCH
  else if lt (avgTipDistance wrist thumbTip indexTip middleTip ringTip pinkyTip)
            (Fin 0.25)
  then CLOSED_FIST
  else OPEN_PALM.

End HandTrackerSpec.

Module ExperienceSpec.
Import JS Experience.

(** The frame clock never runs backwards: [delta >= 0]. *)
Definition dt_nonneg (f : Frame) : Prop := le (Fin 0) (delta f) = true.

(** A transition progress that is exactly 0, or in [0.001, 1]. *)
Definition progress_ok (v : num) : Prop :=
  v = Fin 0 ∨ exists q, v = Fin q ∧ (0.001 <= q)%Q ∧ (q <= 1)%Q.

(** A velocity that is exactly 0, or in [0.01, 3]. *)
Definition velocity_ok (v : num) : Prop :=
  v = Fin 0 ∨ exists q, v = Fin q ∧ (0.01 <= q)%Q ∧ (q <= 3)%Q.

(** The speed of the transition: 1.5 towards 1 (opening), 2.5 towards 0. *)
Definition speed (f : Frame) : Q :=
  if bool_decide (currentGesture f = OPEN_PALM) then 1.5%Q else 2.5%Q.

(** The value of a number known to be finite, for stating bounds. *)
Definition value (v : num) : Q := match v with Fin q => q | _ => 0 end.

(** A point cloud of [N] particles. *)
Definition well_formed (d : PointCloudData) (N : nat) : Prop :=
  length (positions d) = 3 * N ∧ length (targetTree d) = 3 * N
  ∧ length (targetCloud d) = 3 * N ∧ length (colors d) = 3 * N
  ∧ length (sizes d) = N.

Definition all_finite (a : list num) : Prop :=
  Forall (fun v => isFinite v = true) a.

(** The three entries of particle [i] in a buffer of item size 3. *)
Definition triple (a : list num) (i : nat) : num * num * num :=
  (get a (i * 3), get a (i * 3 + 1), get a (i * 3 + 2)).

(** Component [k] (0, 1 or 2) of a triple. *)
Definition component {A} (k : nat) (v : A * A * A) : A :=
  match k with
  | 0%nat => v.1.1
  | 1%nat => v.1.2
  | _ => v.2
  end.

(** The number of draws the loop body makes for each particle of a frame. *)
Definition draws_per_particle (st : Physics) (smoothT : num) : nat :=
  if gt smoothT (Fin 0.01)
     && gt (mul (mul (velocity st) (Fin 0.3)) smoothT) (Fin 0.01)
  then 3 else 0.

(** What the loop body writes for particle [i] in a call whose loop starts
    after [n0] draws. *)
Definition written_position `{Host} (data : PointCloudData) (st : Physics)
    (smoothT time : num) (n0 i : nat) : num * num * num :=
  fst (particle_position data st smoothT time i
         (n0 + i * draws_per_particle st smoothT)).

Definition computed_position `{Host} (data : PointCloudData) (st : Physics)
    (smoothT time : num) (n0 i : nat) : num * num * num :=
  fst (particle_motion data st smoothT time i
         (n0 + i * draws_per_particle st smoothT)).

Definition body_pure `{Host} (data : PointCloudData) (st : Physics)
    (smoothT time : num) (n0 : nat) (bufs : Buffers) (i : nat) : Buffers :=
  {| workingPositions :=
       setXYZ (workingPositions bufs) i (written_position data st smoothT time n0 i);
     workingColors :=
       setXYZ (workingColors bufs) i (particle_color data st smoothT i);
     workingSizes :=
       setX (workingSizes bufs) i (particle_size data st smoothT i) |}.

(** The blend weight of a call. *)
Definition smoothT_of (st : Physics) : num :=
  MathUtils.smoothstep (transitionProgress st) (Fin 0) (Fin 1).

(** A finite number between two bounds. *)
Definition within (lo hi : Q) (v : num) : Prop :=
  exists q, v = Fin q ∧ (lo <= q)%Q ∧ (q <= hi)%Q.

(** What a host guarantees of [Math.sin] and [Math.random]: a sine is NaN or
    in [-1, 1], a draw is in [0, 1). *)
Definition sin_in_range `{Host} : Prop :=
  forall v, Math_sin v = NaN ∨ within (-1) 1 (Math_sin v).

Definition rnd_in_range `{Host} : Prop :=
  forall n, (0 <= rnd n)%Q ∧ (rnd n < 1)%Q.

(** The pure loop body for the size buffer. *)
Definition written_size (data : PointCloudData) (st : Physics) (i : nat) : num :=
  particle_size data st (smoothT_of st) i.

(** The refs and the three buffers after one call. *)
Definition after `{Host} (data : PointCloudData) (st : Physics) (bufs : Buffers)
    (f : Frame) (n : nat) : Physics * Buffers :=
  fst (useFrame data st bufs f n).

End ExperienceSpec.

(** A cloud of two particles and three frames, for evaluating the integrator. *)
Module TestData.
Import JS Experience.

Definition cloud : PointCloudData :=
  {| positions := [Fin (-1); Fin 2; Fin 0.5; Fin 1; Fin 3; Fin 1.5];
     targetTree := [Fin (-1); Fin 2; Fin 0.5; Fin 1; Fin 3; Fin 1.5];
     targetCloud := [Fin 10; Fin (-2); Fin 7; Fin (-12); Fin 1; Fin 20];
     colors := [Fin 0.2; Fin 0.4; Fin 0.6; Fin 1; Fin 0.5; Fin 0];
     sizes := [Fin 0.3; Fin 0] |}.

Definition no_hand : HandData :=
  {| gesture := NONE; x := Fin 0.5; y := Fin 0.5; isDetected := false |}.

Definition frames : list Frame :=
  [ {| delta := Fin 0.016; time := Fin 0.016; hand := no_hand;
       currentGesture := OPEN_PALM |};
    {| delta := Fin 0.2; time := Fin 0.216; hand := no_hand;
       currentGesture := OPEN_PALM |};
    {| delta := Fin 0; time := Fin 0.216; hand := no_hand;
       currentGesture := CLOSED_FIST |} ].

End TestData.

Module GeometrySpec.
Import JS Geometry ExperienceSpec.

(** The number of particles of a point cloud. *)
Definition particle_count (d : PointCloudData) : Z := Z.of_nat (length (sizes d)).

(** A complete point cloud: five arrays for one particle count of at least 1,
    every entry finite, and the initial positions on the image target. *)
Definition complete (d : PointCloudData) : Prop :=
  exists N : nat,
    1 ≤ N ∧ well_formed d N
    ∧ all_finite (positions d) ∧ all_finite (targetTree d)
    ∧ all_finite (targetCloud d) ∧ all_finite (colors d) ∧ all_finite (sizes d)
    ∧ positions d = targetTree d.

(** The procedural shape gives every particle the size 0.3. *)
Definition procedural (d : PointCloudData) : Prop :=
  Forall (fun s => s = Fin 0.3) (sizes d).

(** A number that [Math.floor] may return: an integer or a non-finite value. *)
Definition floored (v : num) : Prop :=
  (exists z, v = of_Z z) ∨ isFinite v = false.

(** What holds of the arrays throughout the loop of [generateAll]. *)
Definition arrays_ok (N : nat) (a : Arrays) : Prop :=
  length (a_positions a) = 3 * N ∧ length (a_targetTree a) = 3 * N
  ∧ length (a_targetCloud a) = 3 * N ∧ length (a_colors a) = 3 * N
  ∧ length (a_sizes a) = N
  ∧ all_finite (a_positions a) ∧ all_finite (a_targetTree a)
  ∧ all_finite (a_targetCloud a) ∧ all_finite (a_colors a)
  ∧ all_finite (a_sizes a)
  ∧ a_positions a = a_targetTree a.


(** A particle count as a whole number. *)
Definition count_of (v : num) : Z :=
  match v with Fin q => Qfloor q | _ => 0%Z end.


(** The bytes of a [Uint8ClampedArray] are at most 255. *)
Definition bytes (px : list nat) : Prop := Forall (fun b => b ≤ 255) px.

(** The pixel data a load event carries, when its canvas can be read. *)
Definition event_bytes (e : Geometry.Event) : Prop :=
  match e with
  | Load _ _ (Some c) =>
      match getImageData c with Some px => bytes px | None => True end
  | _ => True
  end.

(** The promise once [safeResolve] has run on a pending promise. *)
Definition resolved_with (d : PointCloudData) : Promise :=
  {| hasResolved := true; settled := Resolved d; resolveCalls := 1 |}.

End GeometrySpec.

(* ------------------------------------------------------------------------- *)
(** ** Facts about numbers *)
(* ------------------------------------------------------------------------- *)

Module JSFacts.
Import JS.
Local Open Scope Q_scope.

Lemma Qltb_lt a b : Qltb a b = true <-> a < b.
Proof.
  unfold Qltb. rewrite negb_true_iff. split.
  - intros Hle. apply Qnot_le_lt. intros Hba.
    apply Qle_bool_iff in Hba. congruence.
  - intros Hlt. apply not_true_is_false. intros Hba%Qle_bool_iff.
    apply (Qlt_not_le _ _ Hlt Hba).
Qed.

Lemma Qltb_ge a b : Qltb a b = false <-> b <= a.
Proof.
  unfold Qltb. rewrite negb_false_iff. apply Qle_bool_iff.
Qed.

Lemma Qeq_bool_false a b : Qeq_bool a b = false <-> ¬ a == b.
Proof.
  split.
  - intros Hf He. apply Qeq_bool_iff in He. congruence.
  - intros Hne. apply not_true_is_false. intros He%Qeq_bool_iff. done.
Qed.

#[global] Instance equiv_equivalence : Equivalence equiv.
Proof.
  split.
  - intros [q| | |]; simpl; done.
  - intros [a| | |] [b| | |]; simpl; try done; intros Hab; by symmetry.
  - intros [a| | |] [b| | |] [c| | |]; simpl; try done;
      intros Hab Hbc; by rewrite Hab.
Qed.

#[global] Instance Qltb_proper : Proper (Qeq ==> Qeq ==> eq) Qltb.
Proof.
  intros a a' Ha b b' Hb. unfold Qltb. f_equal.
  destruct (Qle_bool b a) eqn:E1, (Qle_bool b' a') eqn:E2; try done.
  - apply Qle_bool_iff in E1. rewrite Ha, Hb in E1.
    apply Qle_bool_iff in E1. congruence.
  - apply Qle_bool_iff in E2. rewrite <- Ha, <- Hb in E2.
    apply Qle_bool_iff in E2. congruence.
Qed.

#[global] Instance Qeq_bool_proper : Proper (Qeq ==> Qeq ==> eq) Qeq_bool.
Proof.
  intros a a' Ha b b' Hb.
  destruct (Qeq_bool a b) eqn:E1, (Qeq_bool a' b') eqn:E2; try done.
  - apply Qeq_bool_iff in E1. rewrite Ha, Hb in E1.
    apply Qeq_bool_iff in E1. congruence.
  - apply Qeq_bool_iff in E2. rewrite <- Ha, <- Hb in E2.
    apply Qeq_bool_iff in E2. congruence.
Qed.

Lemma sign_proper_Q a b : a == b -> Z.sgn (Qnum a) = Z.sgn (Qnum b).
Proof.
  unfold Qeq. destruct a as [na da], b as [nb db]. simpl.
  destruct na, nb; simpl; intros; try done; lia.
Qed.

#[global] Instance sign_proper : Proper (equiv ==> eq) sign.
Proof.
  intros [a| | |] [b| | |]; simpl; try done. apply sign_proper_Q.
Qed.

#[global] Instance lt_proper : Proper (equiv ==> equiv ==> eq) lt.
Proof.
  intros [a| | |] [a'| | |] Ha [b| | |] [b'| | |] Hb; simpl in *; try done.
  by rewrite Ha, Hb.
Qed.

#[global] Instance add_proper : Proper (equiv ==> equiv ==> equiv) add.
Proof.
  intros [a| | |] [a'| | |] Ha [b| | |] [b'| | |] Hb; simpl in *; try done.
  by rewrite Ha, Hb.
Qed.

#[global] Instance div_proper : Proper (equiv ==> equiv ==> equiv) div.
Proof.
  intros [a| | |] [a'| | |] Ha [b| | |] [b'| | |] Hb; simpl in *; try done.
  - rewrite (Qeq_bool_proper _ _ Hb 0 0 (Qeq_refl 0)).
    destruct (Qeq_bool b' 0).
    + rewrite (sign_proper_Q _ _ Ha). reflexivity.
    + simpl. by rewrite Ha, Hb.
  - rewrite (Qeq_bool_proper _ _ Hb 0 0 (Qeq_refl 0)).
    destruct (Qeq_bool b' 0); [done|]. simpl.
    rewrite (sign_proper_Q _ _ Hb). reflexivity.
  - rewrite (Qeq_bool_proper _ _ Hb 0 0 (Qeq_refl 0)).
    destruct (Qeq_bool b' 0); [done|]. simpl.
    rewrite (sign_proper_Q _ _ Hb). reflexivity.
Qed.

Lemma add_0_l v : equiv (add (Fin 0) v) v.
Proof. destruct v; simpl; try done. ring. Qed.

Lemma add_assoc u v w : equiv (add (add u v) w) (add u (add v w)).
Proof. destruct u, v, w; simpl; try done. ring. Qed.

Lemma isFinite_Fin v : isFinite v = true <-> exists q, v = Fin q.
Proof. destruct v; simpl; split; try done; eauto; by intros [? ?]. Qed.

Lemma Qnum_nonneg q : 0 <= q -> (0 <= Qnum q)%Z.
Proof. unfold Qle. simpl. lia. Qed.

Lemma Qeq_inject_Z_le a b : inject_Z a <= inject_Z b -> (a <= b)%Z.
Proof. by rewrite <- Zle_Qle. Qed.

End JSFacts.

(* ------------------------------------------------------------------------- *)
(** ** The gesture stabilizer *)
(* ------------------------------------------------------------------------- *)

Module HandTrackerFacts.
Import JS HandTracker HandTrackerSpec.

Lemma leading_le_length g l : leading g l ≤ length l.
Proof. induction l as [|a l IH]; simpl; [lia|]. case_bool_decide; lia. Qed.

Lemma leading_app_le g l k : leading g l ≤ leading g (l ++ k).
Proof.
  induction l as [|a l IH]; simpl; [lia|]. case_bool_decide; lia.
Qed.

Lemma leading_all g l :
  forallb (fun a => bool_decide (a = g)) l = true -> leading g l = length l.
Proof.
  induction l as [|a l IH]; simpl; [done|].
  intros [Ha Hl]%andb_true_iff. rewrite Ha. by rewrite IH.
Qed.

Lemma trailing_snoc_same g l : trailing g (l ++ [g]) = S (trailing g l).
Proof. unfold trailing. rewrite rev_app_distr. simpl. by rewrite bool_decide_true. Qed.

Lemma trailing_snoc_other g a l : a ≠ g -> trailing g (l ++ [a]) = 0.
Proof.
  intros Hne. unfold trailing. rewrite rev_app_distr. simpl.
  by rewrite bool_decide_false.
Qed.

Lemma trailing_tail_le g l : trailing g (tail l) ≤ trailing g l.
Proof.
  destruct l as [|a l]; simpl; [done|]. unfold trailing. simpl.
  apply leading_app_le.
Qed.

Lemma trailing_all g l :
  every (fun a => bool_decide (a = g)) l = true -> trailing g l = length l.
Proof.
  intros Hall. unfold trailing. rewrite <- length_rev. apply leading_all.
  apply forallb_forall. intros a Ha%in_rev.
  unfold every in Hall. rewrite forallb_forall in Hall. by apply Hall.
Qed.

Lemma trailing_zero_last g l : last l ≠ Some g -> trailing g l = 0.
Proof.
  destruct l as [|a l _] using rev_ind; [done|].
  rewrite last_snoc. intros Hne. apply trailing_snoc_other. congruence.
Qed.

(** The history after a push keeps at most one more trailing [g] than before,
    and none when another gesture is pushed. *)
Lemma push_trailing_same g h : trailing g (push h g) ≤ S (trailing g h).
Proof.
  unfold push. rewrite <- trailing_snoc_same.
  case_bool_decide; [apply trailing_tail_le | done].
Qed.

Lemma push_trailing_other g raw h : raw ≠ g -> trailing g (push h raw) = 0.
Proof.
  intros Hne. unfold push.
  pose proof (trailing_snoc_other g raw h Hne) as H0.
  case_bool_decide; [|done].
  pose proof (trailing_tail_le g (h ++ [raw])). lia.
Qed.

Lemma allMatch_trailing h g :
  allMatch h g = true -> trailing g h = STABILITY_FRAMES.
Proof.
  unfold allMatch. intros [Hlen Hall]%andb_true_iff.
  apply bool_decide_eq_true in Hlen. rewrite <- Hlen. by apply trailing_all.
Qed.

(** The confirmed gesture is the old one or the raw one. *)
Lemma stabilize_cases s raw :
  lastConfirmedGesture (stabilize s raw) = lastConfirmedGesture s
  ∨ lastConfirmedGesture (stabilize s raw) = raw.
Proof. unfold stabilize. simpl. destruct (_ || _); auto. Qed.

(** A raw gesture other than NONE is not confirmed while fewer than four
    entries at the end of the history agree with it. *)
Lemma stabilize_keep s raw :
  raw ≠ NONE -> trailing raw (gestureHistory s) < 4 ->
  lastConfirmedGesture (stabilize s raw) = lastConfirmedGesture s.
Proof.
  intros Hraw Hlt. unfold stabilize. simpl.
  destruct (allMatch _ _) eqn:Hall.
  - apply allMatch_trailing in Hall.
    pose proof (push_trailing_same raw (gestureHistory s)).
    unfold STABILITY_FRAMES in Hall. lia.
  - unfold quickLost. by rewrite bool_decide_false.
Qed.

Lemma stabilize_trailing_same s g :
  trailing g (gestureHistory (stabilize s g)) ≤ S (trailing g (gestureHistory s)).
Proof. apply push_trailing_same. Qed.

Lemma stabilize_trailing_other s g raw :
  raw ≠ g -> trailing g (gestureHistory (stabilize s raw)) = 0.
Proof. apply push_trailing_other. Qed.

(** The history never holds more than [STABILITY_FRAMES] entries. *)
Lemma push_length h raw :
  length h ≤ STABILITY_FRAMES -> length (push h raw) ≤ STABILITY_FRAMES.
Proof.
  intros Hlen. unfold push. case_bool_decide as Hc.
  - destruct (h ++ [raw]) eqn:E; simpl in *; [lia|]. apply (f_equal length) in E. rewrite length_app in E. simpl in *. lia.
  - lia.
Qed.

Lemma push_length_lt h raw :
  length h ≤ STABILITY_FRAMES -> length h ≤ length (push h raw).
Proof.
  intros Hlen. unfold push. case_bool_decide as Hc.
  - destruct (h ++ [raw]) eqn:E; simpl in *; [lia|]. apply (f_equal length) in E. rewrite length_app in E. simpl in *. lia.
  - rewrite length_app. lia.
Qed.

Lemma feed_snoc s raws r : feed s (raws ++ [r]) = stabilize (feed s raws) r.
Proof. unfold feed. by rewrite foldl_app. Qed.

Lemma stabilize_inv s raw : session_inv s -> session_inv (stabilize s raw).
Proof.
  intros [Hlen Hnone]. split; simpl.
  - by apply push_length.
  - intros Hlt. pose proof (push_length_lt (gestureHistory s) raw Hlen).
    unfold allMatch. rewrite bool_decide_false by lia. simpl.
    unfold quickLost. case_bool_decide as Hraw; simpl.
    + destruct (every _ _); [done|]. apply Hnone. lia.
    + apply Hnone. lia.
Qed.

Lemma reachable_inv s : reachable s -> session_inv s.
Proof.
  intros [raws ->]. induction raws as [|r raws IH] using rev_ind.
  - split; simpl; [lia | done].
  - rewrite feed_snoc. by apply stabilize_inv.
Qed.

Lemma slice_last_length {A} n (l : list A) :
  length (slice_last n l) = n `min` length l.
Proof. unfold slice_last. rewrite length_drop. lia. Qed.

Lemma reachable_stabilize s raw : reachable s -> reachable (stabilize s raw).
Proof. intros [raws ->]. exists (raws ++ [raw]). by rewrite feed_snoc. Qed.

Lemma every_Forall {A} (p : A -> bool) (l : list A) :
  every p l = true <-> Forall (fun a => p a = true) l.
Proof.
  unfold every. induction l as [|a l IH]; simpl.
  - split; [constructor | done].
  - rewrite andb_true_iff, IH. split.
    + intros [Ha Hl]. by constructor.
    + intros Hall. by inversion Hall.
Qed.

(** Feeding one to four OPEN_PALM frames to a state whose history does not
    end in OPEN_PALM confirms nothing. *)
Lemma feed_open_keep s g n :
  g ≠ NONE -> trailing g (gestureHistory s) + n ≤ 4 ->
  Forall (fun c => c = lastConfirmedGesture s) (confirmed_trace s (replicate n g))
  ∧ lastConfirmedGesture (feed s (replicate n g)) = lastConfirmedGesture s
  ∧ trailing g (gestureHistory (feed s (replicate n g)))
    ≤ trailing g (gestureHistory s) + n.
Proof.
  intros Hg. revert s. induction n as [|n IH]; intros s Hn; simpl.
  - split; [constructor|]. split; [done | lia].
  - pose proof (stabilize_trailing_same s g) as Htr.
    assert (lastConfirmedGesture (stabilize s g) = lastConfirmedGesture s) as Hk
      by (apply stabilize_keep; [done | lia]).
    destruct (IH (stabilize s g)) as (Hall & Hlast & Htrail); [lia|].
    rewrite Hk in *. split; [by constructor|]. split; [done | lia].
Qed.

(** When the confirmed gesture is already [g], frames of [g] leave it so. *)
Lemma feed_same_keep s g n :
  lastConfirmedGesture s = g ->
  Forall (fun c => c = g) (confirmed_trace s (replicate n g))
  ∧ lastConfirmedGesture (feed s (replicate n g)) = g.
Proof.
  revert s. induction n as [|n IH]; intros s Hs; simpl.
  - split; [constructor | done].
  - assert (lastConfirmedGesture (stabilize s g) = g) as Hk
      by (destruct (stabilize_cases s g); congruence).
    destruct (IH _ Hk) as [Hall Hlast]. split; [by constructor | done].
Qed.

Lemma confirmed_trace_app s l k :
  confirmed_trace s (l ++ k) = confirmed_trace s l ++ confirmed_trace (feed s l) k.
Proof.
  revert s. induction l as [|r l IH]; intros s; simpl; [done|]. by rewrite IH.
Qed.

Lemma feed_app s l k : feed s (l ++ k) = feed (feed s l) k.
Proof. unfold feed. by rewrite foldl_app. Qed.

Lemma feed_one s r : feed s [r] = stabilize s r.
Proof. reflexivity. Qed.

(** After a frame of [g] the history does not end in another gesture. *)
Lemma feed_replicate_last s g g' n :
  0 < n -> g ≠ g' ->
  trailing g' (gestureHistory (feed s (replicate n g))) = 0.
Proof.
  intros Hn Hg. destruct n as [|n]; [lia|].
  replace (S n) with (n + 1) by lia. rewrite replicate_add, feed_app.
  change (replicate 1 g) with [g]. rewrite feed_one.
  by apply stabilize_trailing_other.
Qed.

Lemma stabilize_confirm s g :
  allMatch (push (gestureHistory s) g) g = true ->
  lastConfirmedGesture (stabilize s g) = g.
Proof. intros Hall. unfold stabilize. cbn [lastConfirmedGesture]. by rewrite Hall. Qed.

Lemma feed_five s g :
  feed s (replicate 5 g)
  = stabilize (stabilize (stabilize (stabilize (stabilize s g) g) g) g) g.
Proof. reflexivity. Qed.

(** Five pushes of [g] fill a history of at most five entries with [g]. *)
Lemma push_five h g :
  length h ≤ STABILITY_FRAMES ->
  push (push (push (push (push h g) g) g) g) g = replicate 5 g.
Proof.
  unfold STABILITY_FRAMES. intros Hlen.
  destruct h as [|a [|b [|c [|d [|e [|f h]]]]]]; simpl in Hlen; try lia; done.
Qed.

(** C3, as the claim states it: a state the stabilizer reaches after one
    OPEN_PALM frame, with NONE confirmed, confirms OPEN_PALM at the fourth
    frame of the sequence 4 OPEN_PALM, 1 CLOSED_FIST, 4 OPEN_PALM. *)
Lemma debounce_any_state_counterexample :
  let s := feed initial [OPEN_PALM] in
  lastConfirmedGesture s = NONE
  ∧ confirmed_trace s flicker
    = [NONE; NONE; NONE; OPEN_PALM; OPEN_PALM; OPEN_PALM; OPEN_PALM; OPEN_PALM;
       OPEN_PALM]
  ∧ ¬ Forall (fun c => c = lastConfirmedGesture s) (confirmed_trace s flicker).
Proof.
  split; [done|]. split; [done|].
  intros Hall. apply Forall_lookup_1 with (i := 3) (x := OPEN_PALM) in Hall; done.
Qed.

(** C3 (amended): from every state the stabilizer can reach, (1) if the history
    does not end in OPEN_PALM, or OPEN_PALM is already confirmed, none of the 9
    updates of 4 OPEN_PALM, 1 CLOSED_FIST, 4 OPEN_PALM changes the confirmed
    gesture; (2) 5 OPEN_PALM frames confirm OPEN_PALM; (3) an update changes
    the confirmed gesture only when the history holds 5 entries all equal to
    the raw value, or the raw value is NONE and the last 3 entries are NONE. *)
Theorem debounce (s : Stabilizer) (Hreach : reachable s) :
  (last (gestureHistory s) ≠ Some OPEN_PALM ∨ lastConfirmedGesture s = OPEN_PALM ->
   Forall (fun c => c = lastConfirmedGesture s) (confirmed_trace s flicker))
  ∧ lastConfirmedGesture (feed s (replicate 5 OPEN_PALM)) = OPEN_PALM
  ∧ (forall raw,
       let s' := stabilize s raw in
       lastConfirmedGesture s' ≠ lastConfirmedGesture s ->
       (length (gestureHistory s') = 5
        ∧ Forall (fun g => g = raw) (gestureHistory s'))
       ∨ (raw = NONE ∧ slice_last 3 (gestureHistory s') = [NONE; NONE; NONE])).
Proof.
  pose proof (reachable_inv s Hreach) as [Hlen Hnone].
  split; [|split].
  - intros Hstart. unfold flicker. rewrite !confirmed_trace_app.
    pose proof (feed_replicate_last s OPEN_PALM CLOSED_FIST 4) as T1.
    remember (feed s (replicate 4 OPEN_PALM)) as s1 eqn:Hs1.
    assert (lastConfirmedGesture s1 = lastConfirmedGesture s
            ∧ Forall (fun c => c = lastConfirmedGesture s)
                (confirmed_trace s (replicate 4 OPEN_PALM))) as [H1 F1].
    { subst s1. destruct Hstart as [Hlast | Hconf].
      - destruct (feed_open_keep s OPEN_PALM 4) as (F & L & _); [done| |done].
        rewrite (trailing_zero_last _ _ Hlast). lia.
      - destruct (feed_same_keep s OPEN_PALM 4 Hconf) as [F L].
        rewrite Hconf. done. }
    clear Hs1. rewrite feed_one.
    assert (lastConfirmedGesture (stabilize s1 CLOSED_FIST)
            = lastConfirmedGesture s) as H2.
    { rewrite stabilize_keep; [done | done |]. rewrite T1; [lia | lia | done]. }
    pose proof (stabilize_trailing_other s1 OPEN_PALM CLOSED_FIST) as T2.
    remember (stabilize s1 CLOSED_FIST) as s2 eqn:Hs2. clear Hs2.
    destruct (feed_open_keep s2 OPEN_PALM 4) as (F3 & _ & _);
      [done | rewrite T2; [lia | done] |].
    rewrite H2 in F3.
    apply Forall_app. split; [done|]. apply Forall_app. split; [|done].
    change (confirmed_trace s1 [CLOSED_FIST])
      with [lastConfirmedGesture (stabilize s1 CLOSED_FIST)].
    constructor; [|constructor].
    pose proof (stabilize_keep s1 CLOSED_FIST) as Hk.
    rewrite Hk; [done | done |]. rewrite T1; [lia | lia | done].
  - rewrite feed_five. apply stabilize_confirm.
    change (allMatch
              (push (push (push (push (push (gestureHistory s) OPEN_PALM)
                 OPEN_PALM) OPEN_PALM) OPEN_PALM) OPEN_PALM) OPEN_PALM = true).
    by rewrite push_five.
  - intros raw s' Hchange. subst s'. unfold stabilize in *. simpl in *.
    destruct (allMatch _ _) eqn:Hall; simpl in Hchange.
    + left. unfold allMatch in Hall. apply andb_true_iff in Hall as [Hl He].
      apply bool_decide_eq_true in Hl. split; [done|].
      apply every_Forall in He. eapply Forall_impl; [exact He|].
      intros g Hg. by apply bool_decide_eq_true in Hg.
    + destruct (quickLost _ _) eqn:Hq; [|done]. right.
      unfold quickLost in Hq. apply andb_true_iff in Hq as [Hr He].
      apply bool_decide_eq_true in Hr. subst raw. split; [done|].
      assert (length (gestureHistory s) = 5) as Hfull.
      { destruct (decide (length (gestureHistory s) < STABILITY_FRAMES)) as [Hlt|Hge].
        - by rewrite Hnone in Hchange.
        - unfold STABILITY_FRAMES in *. lia. }
      apply every_Forall in He.
      destruct (gestureHistory s) as [|a [|b [|c [|d [|e [|f h]]]]]];
        simpl in Hfull; try lia.
      unfold push, slice_last in *. simpl in *.
      inversion He as [|? ? Hc He1]; subst. inversion He1 as [|? ? He' He2]; subst.
      inversion He2 as [|? ? Hn _]; subst.
      apply bool_decide_eq_true in Hc, He', Hn. by subst.
Qed.

(** The theorem at a concrete state: a fresh session that has seen one
    CLOSED_FIST frame. *)
Lemma debounce_witness :
  let s := feed initial [CLOSED_FIST] in
  Forall (fun c => c = lastConfirmedGesture s) (confirmed_trace s flicker)
  ∧ lastConfirmedGesture (feed s (replicate 5 OPEN_PALM)) = OPEN_PALM.
Proof.
  intros s.
  destruct (debounce s (ex_intro _ [CLOSED_FIST] eq_refl)) as (H1 & H2 & _).
  split; [apply H1; left; simpl; discriminate | exact H2].
Defined.

(** C10: a NONE frame on a history of fewer than 3 entries.  The history after
    the push is the old one followed by NONE, and [slice(-3)] returns all of
    it (min(3, length) entries), so the fast-exit test holds exactly when
    every entry already there is NONE; the five-frame test cannot hold.  When
    it holds, NONE is confirmed on that frame whatever was confirmed before:
    on an empty history one undetected frame is enough.  When it does not
    hold the confirmed gesture is left as it was, which in a session is NONE,
    nothing else having been confirmed in fewer than five frames; so in every
    state a session reaches NONE is the confirmed gesture after the frame. *)
Theorem fast_exit_short_history (s : Stabilizer)
    (Hshort : length (gestureHistory s) < 3) :
  gestureHistory (stabilize s NONE) = gestureHistory s ++ [NONE]
  ∧ slice_last 3 (gestureHistory (stabilize s NONE))
    = gestureHistory (stabilize s NONE)
  ∧ length (slice_last 3 (gestureHistory (stabilize s NONE)))
    = 3 `min` length (gestureHistory (stabilize s NONE))
  ∧ allMatch (gestureHistory (stabilize s NONE)) NONE = false
  ∧ (quickLost (gestureHistory (stabilize s NONE)) NONE = true
     <-> Forall (fun g => g = NONE) (gestureHistory s))
  ∧ (Forall (fun g => g = NONE) (gestureHistory s) ->
     lastConfirmedGesture (stabilize s NONE) = NONE)
  ∧ (¬ Forall (fun g => g = NONE) (gestureHistory s) ->
     lastConfirmedGesture (stabilize s NONE) = lastConfirmedGesture s)
  ∧ (reachable s -> lastConfirmedGesture (stabilize s NONE) = NONE)
  ∧ (forall c,
       lastConfirmedGesture
         (stabilize {| gestureHistory := []; lastConfirmedGesture := c |} NONE)
       = NONE).
Proof.
  assert (reachable s -> lastConfirmedGesture (stabilize s NONE) = NONE) as Hr.
  { intros Hreach. destruct (stabilize_cases s NONE) as [Hk | Hn]; [|done].
    rewrite Hk. apply (reachable_inv s Hreach). unfold STABILITY_FRAMES. lia. }
  assert (push (gestureHistory s) NONE = gestureHistory s ++ [NONE]) as Hpush'.
  { unfold push. rewrite bool_decide_false; [done|].
    rewrite length_app. unfold STABILITY_FRAMES. simpl. lia. }
  assert (gestureHistory (stabilize s NONE) = gestureHistory s ++ [NONE]) as Hpush
    by exact Hpush'.
  assert (slice_last 3 (gestureHistory s ++ [NONE]) = gestureHistory s ++ [NONE])
    as Hslice.
  { unfold slice_last. rewrite length_app. simpl.
    replace (length (gestureHistory s) + 1 - 3)%nat with 0%nat by lia. done. }
  assert (allMatch (gestureHistory s ++ [NONE]) NONE = false) as Hall.
  { unfold allMatch. rewrite bool_decide_false; [done|].
    rewrite length_app. unfold STABILITY_FRAMES. simpl. lia. }
  assert (quickLost (gestureHistory s ++ [NONE]) NONE = true
          <-> Forall (fun g => g = NONE) (gestureHistory s)) as Hquick.
  { unfold quickLost. rewrite Hslice, bool_decide_true by done.
    rewrite andb_true_l, every_Forall, Forall_app. split.
    - intros [Hh _]. eapply Forall_impl; [exact Hh|].
      intros g Hg. by apply bool_decide_eq_true in Hg.
    - intros Hh. split.
      + eapply Forall_impl; [exact Hh|]. intros g ->. by apply bool_decide_eq_true.
      + by repeat constructor. }
  assert (lastConfirmedGesture (stabilize s NONE)
          = if quickLost (gestureHistory s ++ [NONE]) NONE then NONE
            else lastConfirmedGesture s) as Hconf.
  { unfold stabilize. cbn [lastConfirmedGesture].
    by rewrite Hpush', Hall, orb_false_l. }
  rewrite Hpush.
  split; [done|]. split; [exact Hslice|]. split; [apply slice_last_length|].
  split; [exact Hall|]. split; [exact Hquick|]. split; [|split; [|split]].
  - intros Hh. apply Hquick in Hh. by rewrite Hconf, Hh.
  - intros Hh. rewrite Hconf.
    destruct (quickLost _ _) eqn:Hq; [|done]. exfalso. by apply Hh, Hquick.
  - exact Hr.
  - done.
Qed.

(** The theorem at a state in which OPEN_PALM is confirmed and the history
    holds one NONE: the fast-exit test holds and the confirmed gesture goes
    from OPEN_PALM to NONE on that frame. *)
Lemma fast_exit_short_history_witness :
  let s := {| gestureHistory := [NONE]; lastConfirmedGesture := OPEN_PALM |} in
  length (gestureHistory s) < 3
  ∧ quickLost (gestureHistory (stabilize s NONE)) NONE = true
  ∧ lastConfirmedGesture s = OPEN_PALM
  ∧ lastConfirmedGesture (stabilize s NONE) = NONE.
Proof.
  intros s.
  assert (length (gestureHistory s) < 3) as Hshort by (simpl; lia).
  destruct (fast_exit_short_history s Hshort) as (_ & _ & _ & _ & Hq & Hc & _).
  split; [exact Hshort|]. split; [|split; [reflexivity|]].
  - apply Hq. repeat constructor.
  - apply Hc. repeat constructor.
Defined.

Section Classification.
Context `{Host}.
Import JSFacts.

Lemma fold_five d1 d2 d3 d4 d5 :
  equiv (foldl add (Fin 0) [d1; d2; d3; d4; d5])
        (add d1 (add d2 (add d3 (add d4 d5)))).
Proof.
  simpl. rewrite (add_0_l d1). rewrite !add_assoc. reflexivity.
Qed.

(** C8: when a hand with 21 landmarks is detected, the raw gesture is PINCH
    when the distance between landmarks 4 and 8 is below 0.05, otherwise
    CLOSED_FIST when the mean distance from landmark 0 to landmarks 4, 8, 12,
    16 and 20 is below 0.25, otherwise OPEN_PALM; the hand is reported as
    detected at (1 - landmark[0].x, landmark[0].y). *)
Theorem classify_spec (landmarks : list Landmark) (others : list (list Landmark))
    (H21 : length landmarks = 21) :
  exists wrist thumbTip indexTip middleTip ringTip pinkyTip,
    landmarks !! 0 = Some wrist ∧ landmarks !! 4 = Some thumbTip
    ∧ landmarks !! 8 = Some indexTip ∧ landmarks !! 12 = Some middleTip
    ∧ landmarks !! 16 = Some ringTip ∧ landmarks !! 20 = Some pinkyTip
    ∧ classify (landmarks :: others)
      = Some (spec_gesture wrist thumbTip indexTip middleTip ringTip pinkyTip,
              sub (Fin 1) (lx wrist), ly wrist, true)
    ∧ forall s,
        exists s', predictWebcam s (landmarks :: others)
        = Some (s', {| gesture := lastConfirmedGesture s';
                       x := sub (Fin 1) (lx wrist); y := ly wrist;
                       isDetected := true |})
        ∧ s' = stabilize s
                 (spec_gesture wrist thumbTip indexTip middleTip ringTip pinkyTip).
Proof.
  do 21 (destruct landmarks as [|? landmarks]; [simpl in H21; lia|]).
  destruct landmarks; [|simpl in H21; lia]. clear H21.
  do 6 eexists. do 6 (split; [reflexivity|]).
  match goal with
  | |- ?C = Some (?g, _, _, _) ∧ _ =>
      assert (C = Some (g, sub (Fin 1) (lx l), ly l, true)) as Hc
  end.
  { cbn -[lt div add sub mul foldl]. unfold spec_gesture, pinchDistance, euclid.
    destruct (lt _ (Fin 0.05)); [done|].
    unfold avgTipDistance, euclid. rewrite fold_five. done. }
  split; [exact Hc|]. intros s. eexists. unfold predictWebcam.
  rewrite Hc. cbn -[stabilize spec_gesture]. split; reflexivity.
Qed.

End Classification.

(** The theorem on 21 landmarks on a line, the wrist at (0.5, 0.9) and
    landmark k at 0.02 k above it: thumb and index tips are 0.08 apart and
    the mean tip distance is 0.24, a CLOSED_FIST. *)
Lemma classify_spec_witness :
  let lm (k : nat) := {| lx := Fin 0.5 ; ly := Fin (0.9 - 0.02 * inject_Z (Z.of_nat k));
                         lz := Fin 0 |} in
  let landmarks := map lm (seq 0 21) in
  length landmarks = 21
  ∧ classify (H := TestHost.host) [landmarks]
    = Some (spec_gesture (H := TestHost.host) (lm 0) (lm 4) (lm 8) (lm 12) (lm 16) (lm 20),
            sub (Fin 1) (Fin 0.5), Fin (0.9 - 0.02 * inject_Z 0), true).
Proof.
  intros lm landmarks. split; [reflexivity|].
  destruct (classify_spec (H := TestHost.host) landmarks [] eq_refl)
    as (w & t1 & t2 & t3 & t4 & t5 & H0 & H4 & H8 & H12 & H16 & H20 & Hc & _).
  injection H0 as <-. injection H4 as <-. injection H8 as <-.
  injection H12 as <-. injection H16 as <-. injection H20 as <-.
  exact Hc.
Defined.

End HandTrackerFacts.

(* ------------------------------------------------------------------------- *)
(** ** The particle integrator: the refs *)
(* ------------------------------------------------------------------------- *)

Module ExperienceFacts.
Import JS MathUtils Experience ExperienceSpec JSFacts.
Local Open Scope Q_scope.

Lemma safeDelta_range f :
  dt_nonneg f -> exists s, safeDelta f = Fin s ∧ 0 <= s ∧ s <= 0.05.
Proof.
  unfold dt_nonneg, safeDelta. destruct (delta f) as [d| | |]; simpl; try done.
  - intros Hd%Qle_bool_iff. destruct (Qltb 0.05 d) eqn:E.
    + exists 0.05. split; [done|]. split; lra.
    + apply Qltb_ge in E. exists d. done.
  - intros _. exists 0.05. split; [done|]. split; lra.
Qed.

Lemma targetT_cases f :
  (currentGesture f = OPEN_PALM ∧ targetT f = Fin 1 ∧ speed f = 1.5)
  ∨ (currentGesture f ≠ OPEN_PALM ∧ targetT f = Fin 0 ∧ speed f = 2.5).
Proof. unfold targetT, speed. case_bool_decide; auto. Qed.

Lemma progress_lerp_Fin p f s :
  safeDelta f = Fin s ->
  progress_lerp (Fin p) f
  = Fin ((1 + - (s * speed f)) * p + s * speed f * value (targetT f)).
Proof.
  intros Hs. unfold progress_lerp, lerp. rewrite Hs.
  destruct (targetT_cases f) as [(_ & -> & ->) | (_ & -> & ->)]; reflexivity.
Qed.

Lemma next_progress_ok tp f :
  progress_ok tp -> dt_nonneg f -> progress_ok (next_progress tp f).
Proof.
  intros Htp Hdt. destruct (safeDelta_range f Hdt) as (s & Hs & Hs0 & Hs1).
  assert (exists p, tp = Fin p ∧ 0 <= p ∧ p <= 1) as (p & -> & Hp0 & Hp1).
  { destruct Htp as [-> | (q & -> & Hq0 & Hq1)].
    - exists 0. split; [done|]. split; lra.
    - exists q. split; [done|]. split; lra. }
  unfold next_progress. rewrite (progress_lerp_Fin p f s Hs). simpl.
  destruct (Qltb _ 0.001) eqn:E; [by left|]. right.
  apply Qltb_ge in E. eexists. split; [reflexivity|]. split; [exact E|].
  destruct (targetT_cases f) as [(_ & -> & ->) | (_ & -> & ->)]; simpl; nra.
Qed.

Section Refs.
Context `{Host}.

Lemma useFrame_refs data st bufs f n :
  fst (fst (useFrame data st bufs f n)) = advance st f.
Proof. unfold useFrame, bind, ret. by destruct (for_loop _ _ _ _ _). Qed.

(** A property of the refs that every call preserves holds after every call
    of a run. *)
Lemma run_invariant (I : Physics -> Prop) (G : Frame -> Prop) data :
  (forall st f, I st -> G f -> I (advance st f)) ->
  forall frames st bufs n,
    I st -> Forall G frames ->
    Forall (fun out => I (fst out)) (fst (run data st bufs frames n)).
Proof.
  intros Hstep. induction frames as [|f frames IH]; intros st bufs n Hst HG.
  - constructor.
  - inversion HG as [|? ? Hf Hfs]; subst. simpl. unfold bind, ret.
    pose proof (useFrame_refs data st bufs f n) as Hrefs.
    destruct (useFrame data st bufs f n) as [[st' bufs'] n']. simpl in Hrefs.
    specialize (IH st' bufs' n').
    destruct (run data st' bufs' frames n') as [rest n'']. simpl in *.
    subst st'. constructor; [by apply Hstep|]. apply IH; [by apply Hstep | done].
Qed.

Lemma targetVelocity_not_PInf st f : targetVelocity st f ≠ PInf.
Proof.
  unfold targetVelocity. destruct (isDetected (hand f)); [|done].
  destruct (negb (wasDetected st)); [done|].
  destruct (div _ (safeDelta f)) as [q| | |]; simpl; try done.
  destruct (Qltb 5.0 q); done.
Qed.

Lemma velocity_lerp_not_PInf st f :
  velocity_ok (velocity st) -> dt_nonneg f -> velocity_lerp st f ≠ PInf.
Proof.
  intros Hv Hdt. destruct (safeDelta_range f Hdt) as (s & Hs & Hs0 & Hs1).
  assert (exists v, velocity st = Fin v) as [v Hvel]
    by (destruct Hv as [-> | (q & -> & _)]; eauto).
  unfold velocity_lerp, lerp. rewrite Hs, Hvel.
  pose proof (targetVelocity_not_PInf st f) as Htv.
  assert (forall k : Q, 0 < k ->
            add (mul (sub (Fin 1) (mul (Fin s) (Fin k))) (Fin v))
                (mul (mul (Fin s) (Fin k)) (targetVelocity st f)) ≠ PInf) as Hk.
  { intros k Hk. destruct (targetVelocity st f) as [t| | |]; simpl; try done.
    assert (0 <= Qnum (s * k))%Z as Hnum.
    { apply Qnum_nonneg. nra. }
    simpl in Hnum. destruct (Qnum s * Qnum k)%Z; simpl; [done | done | lia]. }
  destruct (lt _ (Fin v)); apply Hk; lra.
Qed.

Lemma next_velocity_ok st f : velocity_ok (next_velocity st f).
Proof.
  unfold next_velocity. destruct (velocity_lerp st f) as [q| | |]; simpl.
  - destruct (Qltb q 0.01) eqn:E1; simpl; [by left|].
    apply Qltb_ge in E1. unfold gt. simpl. destruct (Qltb 3.0 q) eqn:E2; simpl.
    + right. exists 3.0. split; [done|]. split; lra.
    + apply Qltb_ge in E2. right. exists q. split; [done|]. split; lra.
  - right. exists 3.0. split; [done|]. split; lra.
  - by left.
  - by left.
Qed.

Lemma next_velocity_snap st f :
  lt (velocity_lerp st f) (Fin 0.01) = true -> next_velocity st f = Fin 0.
Proof. unfold next_velocity. by intros ->. Qed.

Lemma next_velocity_nonfinite st f :
  velocity_ok (velocity st) -> dt_nonneg f ->
  isFinite (velocity_lerp st f) = false -> next_velocity st f = Fin 0.
Proof.
  intros Hv Hdt Hnf. pose proof (velocity_lerp_not_PInf st f Hv Hdt) as Hp.
  unfold next_velocity. destruct (velocity_lerp st f); done.
Qed.

Lemma velocity_ok_range v :
  velocity_ok v -> exists q, v = Fin q ∧ 0 <= q ∧ q <= 3 ∧ (q < 0.01 -> v = Fin 0).
Proof.
  intros [-> | (q & -> & H0 & H3)].
  - exists 0. split; [done|]. split; [lra|]. split; [lra|done].
  - exists q. split; [done|]. split; [lra|]. split; [lra|]. intros. lra.
Qed.

Lemma progress_ok_range v :
  progress_ok v -> exists q, v = Fin q ∧ 0 <= q ∧ q <= 1 ∧ (q < 0.001 -> v = Fin 0).
Proof.
  intros [-> | (q & -> & H0 & H3)].
  - exists 0. split; [done|]. split; [lra|]. split; [lra|done].
  - exists q. split; [done|]. split; [lra|]. split; [lra|]. intros. lra.
Qed.

(** C2: the transition progress starts at 0 and, over every run of calls with
    [delta >= 0] and any gestures, is after every call a number of [0, 1]
    that is exactly 0 when below 0.001; one call moves it by
    (targetT - progress) * min(delta, 0.05) * speed, with speed 1.5 towards 1
    and 2.5 towards 0, before the snap. *)
Theorem transition_progress_bounded data bufs frames n
    (Hdt : Forall dt_nonneg frames) :
  transitionProgress initial = Fin 0
  ∧ Forall (fun out =>
      exists q, transitionProgress (fst out) = Fin q ∧ 0 <= q ∧ q <= 1
                ∧ (q < 0.001 -> transitionProgress (fst out) = Fin 0))
      (fst (run data initial bufs frames n))
  ∧ (forall st f, progress_ok (transitionProgress st) -> dt_nonneg f ->
       exists p s,
         transitionProgress st = Fin p ∧ Math_min (delta f) (Fin 0.05) = Fin s
         ∧ equiv (progress_lerp (Fin p) f)
                 (Fin (p + (value (targetT f) - p) * s * speed f))
         ∧ transitionProgress (advance st f)
           = (if lt (progress_lerp (Fin p) f) (Fin 0.001) then Fin 0
              else progress_lerp (Fin p) f)
         ∧ progress_ok (transitionProgress (advance st f))).
Proof.
  split; [done|]. split.
  - eapply Forall_impl.
    + apply (run_invariant (fun st => progress_ok (transitionProgress st))
               dt_nonneg data); [|by left|exact Hdt].
      intros st f Hst Hf. by apply next_progress_ok.
    + intros out Hout. by apply progress_ok_range.
  - intros st f Hst Hf.
    destruct (progress_ok_range _ Hst) as (p & Hp & _).
    destruct (safeDelta_range f Hf) as (s & Hs & _).
    exists p, s. split; [done|]. split; [exact Hs|]. split; [|split].
    + rewrite (progress_lerp_Fin p f s Hs). simpl. ring.
    + simpl. unfold next_progress. by rewrite Hp.
    + simpl. by apply next_progress_ok.
Qed.

(** C9: after the velocity update of every call the velocity is exactly 0 or
    in [0.01, 3], hence nonnegative and at most 3; a value below 0.01 is
    snapped to 0; and in every call with [delta >= 0] a non-finite value is
    reset to 0. *)
Theorem velocity_bounded data bufs frames n :
  Forall (fun out =>
      exists q, velocity (fst out) = Fin q ∧ 0 <= q ∧ q <= 3
                ∧ (q < 0.01 -> velocity (fst out) = Fin 0))
    (fst (run data initial bufs frames n))
  ∧ (forall st f,
       velocity (advance st f) = next_velocity st f
       ∧ velocity_ok (next_velocity st f)
       ∧ (lt (velocity_lerp st f) (Fin 0.01) = true -> next_velocity st f = Fin 0)
       ∧ (velocity_ok (velocity st) -> dt_nonneg f ->
          isFinite (velocity_lerp st f) = false -> next_velocity st f = Fin 0)).
Proof.
  split.
  - eapply Forall_impl.
    + apply (run_invariant (fun st => velocity_ok (velocity st))
               (fun _ => True) data);
        [|by left|by apply Forall_true].
      intros st f _ _. apply next_velocity_ok.
    + intros out Hout. by apply velocity_ok_range.
  - intros st f. split; [done|]. split; [apply next_velocity_ok|].
    split; [apply next_velocity_snap | apply next_velocity_nonfinite].
Qed.

End Refs.

(* ------------------------------------------------------------------------- *)
(** ** The particle integrator: the loop *)
(* ------------------------------------------------------------------------- *)

Lemma setXYZ_length a i v : length (setXYZ a i v) = length a.
Proof.
  destruct v as [[vx vy] vz]. unfold setXYZ, set. by rewrite !length_insert.
Qed.

Lemma setXYZ_lookup a i v (j : nat) :
  (j < length a)%nat ->
  setXYZ a i v !! j
  = if decide (j = i * 3)%nat then Some v.1.1
    else if decide (j = i * 3 + 1)%nat then Some v.1.2
    else if decide (j = i * 3 + 2)%nat then Some v.2
    else a !! j.
Proof.
  intros Hj. destruct v as [[vx vy] vz]. unfold setXYZ, set. simpl.
  repeat case_decide; subst.
  - rewrite list_lookup_insert_ne by lia. rewrite list_lookup_insert_ne by lia.
    apply list_lookup_insert_eq. lia.
  - rewrite list_lookup_insert_ne by lia. apply list_lookup_insert_eq.
    rewrite length_insert. lia.
  - apply list_lookup_insert_eq. rewrite !length_insert. lia.
  - by rewrite !list_lookup_insert_ne by lia.
Qed.

Lemma index_split (j : nat) :
  (j = (j / 3) * 3 + j `mod` 3)%nat ∧ (j `mod` 3 < 3)%nat.
Proof.
  split; [|apply Nat.mod_upper_bound; lia].
  pose proof (Nat.div_mod_eq j 3). lia.
Qed.

Lemma index_join (i k : nat) :
  (k < 3)%nat -> ((i * 3 + k) / 3 = i)%nat ∧ ((i * 3 + k) `mod` 3 = k)%nat.
Proof.
  intros Hk. split; symmetry.
  - apply (Nat.div_unique _ 3 i k); lia.
  - apply (Nat.mod_unique _ 3 i k); lia.
Qed.

(** After the writes for particles 0 to [n - 1], entry [j] of a buffer of item
    size 3 holds component [j mod 3] of what was written for particle
    [j / 3]. *)
Lemma foldl_setXYZ_length g a l :
  length (foldl (fun a i => setXYZ a i (g i)) a l) = length a.
Proof.
  revert a. induction l as [|i l IH]; intros a; simpl; [done|].
  by rewrite IH, setXYZ_length.
Qed.

Lemma foldl_setXYZ_lookup (g : nat -> num * num * num) a n (j : nat) :
  (j < length a)%nat -> (j < n * 3)%nat ->
  foldl (fun a i => setXYZ a i (g i)) a (seq 0 n) !! j
  = Some (component (j `mod` 3) (g (j / 3)%nat)).
Proof.
  intros Hja. induction n as [|n IH]; intros Hjn; [lia|].
  rewrite seq_S, foldl_app. cbn [foldl Nat.add].
  rewrite setXYZ_lookup by (by rewrite foldl_setXYZ_length).
  destruct (index_split j) as [Hj Hmod].
  repeat case_decide.
  - replace (j / 3)%nat with n by lia. replace (j `mod` 3)%nat with 0%nat by lia.
    done.
  - replace (j / 3)%nat with n by lia. replace (j `mod` 3)%nat with 1%nat by lia.
    done.
  - replace (j / 3)%nat with n by lia. replace (j `mod` 3)%nat with 2%nat by lia.
    done.
  - apply IH. lia.
Qed.

Lemma Qceiling_div3 (N : nat) :
  Qceiling (inject_Z (Z.of_nat (3 * N)) / 3) = Z.of_nat N.
Proof.
  assert (inject_Z (Z.of_nat (3 * N)) / 3 == inject_Z (Z.of_nat N)) as ->.
  { rewrite Nat2Z.inj_mul, inject_Z_mult. simpl (Z.of_nat 3). field. }
  apply Qceiling_Z.
Qed.

Lemma count_iterations (N : nat) :
  iterations (div (of_nat (3 * N)) (Fin 3)) = N.
Proof.
  change (iterations (div (of_nat (3 * N)) (Fin 3)))
    with (Z.to_nat (Qceiling (inject_Z (Z.of_nat (3 * N)) / 3))).
  rewrite Qceiling_div3. apply Nat2Z.id.
Qed.

Section Loop.
Context `{Host}.

Lemma particle_motion_draws data st smoothT time i m :
  snd (particle_motion data st smoothT time i m)
  = (m + draws_per_particle st smoothT)%nat.
Proof.
  unfold particle_motion, draws_per_particle.
  destruct (gt smoothT (Fin 0.01)); cbn [andb]; [|unfold ret; cbn [snd]; lia].
  destruct (gt (velocity st) (Fin 0.01));
    destruct (gt (mul (mul (velocity st) (Fin 0.3)) smoothT) (Fin 0.01));
    unfold bind, ret, Math_random; cbn [snd]; lia.
Qed.

Lemma particle_position_draws data st smoothT time i m :
  snd (particle_position data st smoothT time i m)
  = (m + draws_per_particle st smoothT)%nat.
Proof.
  unfold particle_position, bind, ret.
  pose proof (particle_motion_draws data st smoothT time i m) as Hd.
  destruct (particle_motion data st smoothT time i m) as [[[px py] pz] m'].
  done.
Qed.

Lemma written_bound data st smoothT time n0 i :
  written_position data st smoothT time n0 i
  = let p := computed_position data st smoothT time n0 i in
    (bound p.1.1 (get (targetTree data) (i * 3)),
     bound p.1.2 (get (targetTree data) (i * 3 + 1)),
     bound p.2 (get (targetTree data) (i * 3 + 2))).
Proof.
  unfold written_position, computed_position, particle_position, bind, ret.
  by destruct (particle_motion _ _ _ _ _ _) as [[[px py] pz] m'].
Qed.

Lemma particle_pure data st smoothT time n0 i bufs :
  particle data st smoothT time i bufs (n0 + i * draws_per_particle st smoothT)%nat
  = (body_pure data st smoothT time n0 bufs i,
     (n0 + S i * draws_per_particle st smoothT)%nat).
Proof.
  unfold particle, body_pure, written_position, bind, ret.
  pose proof (particle_position_draws data st smoothT time i
                (n0 + i * draws_per_particle st smoothT)) as Hd.
  destruct (particle_position _ _ _ _ _ _) as [p m']. simpl in *. subst m'.
  f_equal. lia.
Qed.

(** The loop as a fold of its body, particle by particle. *)
Lemma for_loop_pure data st smoothT time n0 n :
  forall from bufs,
    for_loop from n (particle data st smoothT time) bufs
      (n0 + from * draws_per_particle st smoothT)%nat
    = (foldl (body_pure data st smoothT time n0) bufs (seq from n),
       (n0 + (from + n) * draws_per_particle st smoothT)%nat).
Proof.
  induction n as [|n IH]; intros from bufs; simpl.
  - unfold ret. f_equal. f_equal. lia.
  - unfold bind. rewrite particle_pure. rewrite IH. f_equal. f_equal. lia.
Qed.

Lemma foldl_body_positions data st smoothT time n0 l bufs :
  workingPositions (foldl (body_pure data st smoothT time n0) bufs l)
  = foldl (fun a i => setXYZ a i (written_position data st smoothT time n0 i))
      (workingPositions bufs) l.
Proof. revert bufs. induction l as [|i l IH]; intros bufs; simpl; [done|]. by rewrite IH. Qed.

Lemma foldl_body_colors data st smoothT time n0 l bufs :
  workingColors (foldl (body_pure data st smoothT time n0) bufs l)
  = foldl (fun a i => setXYZ a i (particle_color data st smoothT i))
      (workingColors bufs) l.
Proof. revert bufs. induction l as [|i l IH]; intros bufs; simpl; [done|]. by rewrite IH. Qed.

(** One call of the callback on a cloud of [N] particles: the refs advance and
    the loop writes particles 0 to [N - 1]. *)
Lemma after_eq data N st bufs f n :
  length (positions data) = (3 * N)%nat ->
  after data st bufs f n
  = (advance st f,
     foldl (body_pure data (advance st f) (smoothT_of (advance st f)) (time f) n)
       bufs (seq 0 N)).
Proof.
  intros Hlen. unfold after, useFrame, bind, ret. rewrite Hlen, count_iterations.
  pose proof (for_loop_pure data (advance st f) (smoothT_of (advance st f))
                (time f) n N 0 bufs) as Hloop.
  simpl in Hloop. replace (n + 0)%nat with n in Hloop by lia.
  unfold smoothT_of in Hloop. rewrite Hloop. done.
Qed.

Lemma foldl_body_lengths data st smoothT time n0 l bufs :
  length (workingPositions (foldl (body_pure data st smoothT time n0) bufs l))
  = length (workingPositions bufs)
  ∧ length (workingColors (foldl (body_pure data st smoothT time n0) bufs l))
    = length (workingColors bufs).
Proof.
  rewrite foldl_body_positions, foldl_body_colors.
  by rewrite !foldl_setXYZ_length.
Qed.

Lemma get_lookup (a : list num) (j : nat) :
  (j < length a)%nat -> a !! j = Some (get a j).
Proof.
  intros Hj. unfold get. destruct (a !! j) eqn:E; [done|].
  apply lookup_ge_None in E. lia.
Qed.

Lemma component_triple a (j : nat) :
  component (j `mod` 3) (triple a (j / 3)%nat) = get a j.
Proof.
  destruct (index_split j) as [Hj Hmod].
  remember (j / 3)%nat as q eqn:Hq. remember (j `mod` 3)%nat as r eqn:Hr.
  clear Hq Hr. unfold triple, component.
  destruct r as [|[|[|k]]]; cbn [fst snd]; f_equal; lia.
Qed.

(** Without motion no sparkle is added: the color written is the base color. *)
Lemma particle_color_base data st smoothT i :
  equiv (velocity st) (Fin 0) ->
  particle_color data st smoothT i = triple (colors data) i.
Proof.
  intros Hv. unfold particle_color, gt.
  rewrite (lt_proper (Fin 0.1) (Fin 0.1) (reflexivity _) _ _ Hv).
  change (lt (Fin 0.1) (Fin 0)) with false. by rewrite andb_false_r.
Qed.

Lemma after_colors_lookup data N st bufs f n (j : nat) :
  length (positions data) = (3 * N)%nat ->
  length (workingColors bufs) = (3 * N)%nat ->
  (j < 3 * N)%nat ->
  workingColors (snd (after data st bufs f n)) !! j
  = Some (component (j `mod` 3)
            (particle_color data (advance st f) (smoothT_of (advance st f))
               (j / 3)%nat)).
Proof.
  intros Hlen Hbuf Hj. rewrite (after_eq data N) by done. cbn [snd].
  rewrite foldl_body_colors. apply foldl_setXYZ_lookup; lia.
Qed.

Lemma after_positions_lookup data N st bufs f n (j : nat) :
  length (positions data) = (3 * N)%nat ->
  length (workingPositions bufs) = (3 * N)%nat ->
  (j < 3 * N)%nat ->
  workingPositions (snd (after data st bufs f n)) !! j
  = Some (component (j `mod` 3)
            (written_position data (advance st f) (smoothT_of (advance st f))
               (time f) n (j / 3)%nat)).
Proof.
  intros Hlen Hbuf Hj. rewrite (after_eq data N) by done. cbn [snd].
  rewrite foldl_body_positions. apply foldl_setXYZ_lookup; lia.
Qed.

Lemma after_lengths data N st bufs f n :
  length (positions data) = (3 * N)%nat ->
  length (workingPositions (snd (after data st bufs f n)))
  = length (workingPositions bufs)
  ∧ length (workingColors (snd (after data st bufs f n)))
    = length (workingColors bufs).
Proof.
  intros Hlen. rewrite (after_eq data N) by done. apply foldl_body_lengths.
Qed.

Lemma after_colors_base data N st bufs f n :
  well_formed data N ->
  length (workingColors bufs) = (3 * N)%nat ->
  equiv (velocity (advance st f)) (Fin 0) ->
  workingColors (snd (after data st bufs f n)) = colors data.
Proof.
  intros (Hp & _ & _ & Hc & _) Hbuf Hv. apply list_eq. intros j.
  destruct (decide (j < 3 * N)%nat) as [Hj | Hj].
  - rewrite (after_colors_lookup data N) by done.
    rewrite particle_color_base by done. rewrite component_triple.
    symmetry. apply get_lookup. lia.
  - pose proof (after_lengths data N st bufs f n Hp) as [_ Hl].
    rewrite !(proj2 (lookup_ge_None _ _)); [done | lia | lia].
Qed.

Lemma after_colors_fresh data N st bufs1 bufs2 f n :
  well_formed data N ->
  length (workingColors bufs1) = (3 * N)%nat ->
  length (workingColors bufs2) = (3 * N)%nat ->
  workingColors (snd (after data st bufs1 f n))
  = workingColors (snd (after data st bufs2 f n)).
Proof.
  intros (Hp & _) Hb1 Hb2. apply list_eq. intros j.
  destruct (decide (j < 3 * N)%nat) as [Hj | Hj].
  - by rewrite !(after_colors_lookup data N) by done.
  - pose proof (after_lengths data N st bufs1 f n Hp) as [_ Hl1].
    pose proof (after_lengths data N st bufs2 f n Hp) as [_ Hl2].
    rewrite !(proj2 (lookup_ge_None _ _)); [done | lia | lia].
Qed.

(** C1: on every point cloud, each call of a run in which the velocity is 0
    writes the base colors, entry for entry, whatever the gestures; and the
    colors a call writes do not depend on the colors in the buffer before the
    call.  So the calls of a run with velocity 0 all write the same colors. *)
Theorem color_idempotence data N st bufs frames n
    (Hwf : well_formed data N)
    (Hbuf : length (workingColors bufs) = (3 * N)%nat) :
  Forall (fun out =>
      equiv (velocity (fst out)) (Fin 0) -> workingColors (snd out) = colors data)
    (fst (run data st bufs frames n))
  ∧ (forall st f n bufs1 bufs2,
       length (workingColors bufs1) = (3 * N)%nat ->
       length (workingColors bufs2) = (3 * N)%nat ->
       workingColors (snd (after data st bufs1 f n))
       = workingColors (snd (after data st bufs2 f n))).
Proof.
  split; [|intros; by apply (after_colors_fresh data N)].
  revert st bufs n Hbuf. induction frames as [|f frames IH]; intros st bufs n Hbuf.
  - constructor.
  - simpl. unfold bind, ret.
    pose proof (after_colors_base data N st bufs f n Hwf Hbuf) as Hbase.
    pose proof (after_lengths data N st bufs f n (proj1 Hwf)) as [_ Hlen].
    pose proof (useFrame_refs data st bufs f n) as Hrefs.
    unfold after in *.
    destruct (useFrame data st bufs f n) as [[st' bufs'] n']. simpl in *.
    specialize (IH st' bufs' n').
    destruct (run data st' bufs' frames n') as [rest n'']. simpl in *.
    constructor.
    + simpl. intros Hv. apply Hbase. subst st'. exact Hv.
    + apply IH. lia.
Qed.

Lemma bound_replace p d :
  isFinite p = false ∨ gt (Math_abs p) (Fin 200) = true -> bound p d = d.
Proof.
  unfold bound. intros [-> | ->]; [done|]. by rewrite orb_true_r.
Qed.

Lemma bound_keep p d :
  isFinite p = true -> gt (Math_abs p) (Fin 200) = false -> bound p d = p.
Proof. unfold bound. by intros -> ->. Qed.

Lemma bound_finite p d : isFinite d = true -> isFinite (bound p d) = true.
Proof.
  intros Hd. unfold bound. destruct (isFinite p) eqn:Hp; cbn [negb orb]; [|done].
  by destruct (gt (Math_abs p) (Fin 200)).
Qed.

Lemma bound_magnitude p d :
  isFinite d = true -> le (Math_abs d) (Fin 200) = true ->
  le (Math_abs (bound p d)) (Fin 200) = true.
Proof.
  intros Hd Hle. unfold bound. destruct p as [q| | |]; simpl; try done.
  unfold gt. simpl. destruct (Qltb 200 (Qabs q)) eqn:E; [done|].
  apply Qltb_ge in E. simpl. by apply Qle_bool_iff.
Qed.

Lemma triple_inj a b i :
  triple a i = triple b i ->
  get a (i * 3) = get b (i * 3) ∧ get a (i * 3 + 1) = get b (i * 3 + 1)
  ∧ get a (i * 3 + 2) = get b (i * 3 + 2).
Proof. unfold triple. intros [= -> -> ->]. done. Qed.

(** What is written for a particle depends on the data through the targets
    of that particle alone. *)
Lemma written_position_ext data1 data2 st smoothT time n0 i :
  triple (targetTree data1) i = triple (targetTree data2) i ->
  triple (targetCloud data1) i = triple (targetCloud data2) i ->
  written_position data1 st smoothT time n0 i
  = written_position data2 st smoothT time n0 i.
Proof.
  intros (T0 & T1 & T2)%triple_inj (C0 & C1 & C2)%triple_inj.
  unfold written_position, particle_position, particle_motion.
  by rewrite T0, T1, T2, C0, C1, C2.
Qed.

Lemma component_finite k (v : num * num * num) :
  isFinite v.1.1 = true -> isFinite v.1.2 = true -> isFinite v.2 = true ->
  isFinite (component k v) = true.
Proof. intros. unfold component. by destruct k as [|[|k]]. Qed.

Lemma all_finite_get a (j : nat) :
  all_finite a -> (j < length a)%nat -> isFinite (get a j) = true.
Proof.
  intros Hall Hj. unfold all_finite in Hall. rewrite Forall_lookup in Hall.
  apply (Hall j). by apply get_lookup.
Qed.

(** C4: in every call on a cloud of [N] particles, (1) the entry written for
    axis [k] of particle [i] is the computed coordinate passed through the
    safety bound, which replaces a coordinate that is not finite or of
    magnitude above 200 by the image-target coordinate of that particle and
    axis, and keeps any other; (2) what is written for particle [i] is the same
    for every cloud with the same targets for particle [i], whatever the other
    particles hold; (3) when the image targets are finite, as the builder
    makes them, every entry of the position buffer after the call is finite. *)
Theorem safety_bounds data N st bufs f n
    (Hwf : well_formed data N)
    (Hbuf : length (workingPositions bufs) = (3 * N)%nat) :
  let st' := advance st f in
  let out := workingPositions (snd (after data st bufs f n)) in
  (forall i k, (i < N)%nat -> (k < 3)%nat ->
     let p := component k
                (computed_position data st' (smoothT_of st') (time f) n i) in
     let d := get (targetTree data) (i * 3 + k) in
     out !! (i * 3 + k)%nat = Some (bound p d)
     ∧ (isFinite p = false ∨ gt (Math_abs p) (Fin 200) = true -> bound p d = d)
     ∧ (isFinite p = true -> gt (Math_abs p) (Fin 200) = false -> bound p d = p))
  ∧ (forall data2 bufs2 i,
       well_formed data2 N -> length (workingPositions bufs2) = (3 * N)%nat ->
       (i < N)%nat ->
       triple (targetTree data2) i = triple (targetTree data) i ->
       triple (targetCloud data2) i = triple (targetCloud data) i ->
       triple (workingPositions (snd (after data2 st bufs2 f n))) i
       = triple out i)
  ∧ (all_finite (targetTree data) -> all_finite out).
Proof.
  intros st' out. destruct Hwf as (Hp & Ht & Hc & Hwf).
  assert (forall j, (j < 3 * N)%nat ->
            out !! j = Some (component (j `mod` 3)
                               (written_position data st' (smoothT_of st')
                                  (time f) n (j / 3)%nat))) as Hout.
  { intros j Hj. by apply (after_positions_lookup data N). }
  split; [|split].
  - intros i k Hi Hk p d. split; [|split; [apply bound_replace | apply bound_keep]].
    rewrite Hout by lia. destruct (index_join i k Hk) as [-> ->].
    rewrite written_bound. subst p d. cbv zeta.
    destruct k as [|[|[|k]]]; try lia; cbn [component fst snd]; repeat f_equal; lia.
  - intros data2 bufs2 i (Hp2 & _) Hbuf2 Hi HT HC.
    assert (forall k, (k < 3)%nat ->
              get (workingPositions (snd (after data2 st bufs2 f n))) (i * 3 + k)
              = get out (i * 3 + k)) as Hk.
    { intros k Hk. unfold get.
      rewrite (after_positions_lookup data2 N) by (done || lia).
      rewrite Hout by lia. destruct (index_join i k Hk) as [-> ->].
      cbn [default].
      by rewrite (written_position_ext data2 data _ _ _ _ i HT HC). }
    unfold triple. rewrite <- (Nat.add_0_r (i * 3)) at 1 4.
    by rewrite !Hk by lia.
  - intros Hfin. unfold all_finite. apply Forall_lookup. intros j v Hv.
    assert (j < 3 * N)%nat as Hj.
    { apply lookup_lt_Some in Hv.
      pose proof (after_lengths data N st bufs f n Hp) as [Hl _].
      unfold out in Hv. lia. }
    rewrite Hout in Hv by done.
    destruct (index_split j) as [Hsplit Hmod].
    remember (j / 3)%nat as q eqn:Hq. remember (j `mod` 3)%nat as r eqn:Hr.
    clear Hq Hr. assert (v = component r
      (written_position data st' (smoothT_of st') (time f) n q)) as ->
      by congruence.
    rewrite written_bound. cbv zeta.
    apply component_finite; cbn [fst snd]; apply bound_finite;
      apply all_finite_get; (done || lia).
Qed.

End Loop.

(** The theorems on the two-particle cloud of [TestData]. *)
Lemma color_idempotence_witness :
  well_formed TestData.cloud 2%nat
  ∧ Forall (fun out =>
      equiv (velocity (fst out)) (Fin 0) ->
      workingColors (snd out) = colors TestData.cloud)
    (fst (run (H := TestHost.host) TestData.cloud initial
            (clone TestData.cloud) TestData.frames 0%nat)).
Proof.
  assert (well_formed TestData.cloud 2%nat) as Hwf by (repeat split).
  split; [exact Hwf|].
  exact (proj1 (color_idempotence (H := TestHost.host) TestData.cloud 2%nat initial
                  (clone TestData.cloud) TestData.frames 0%nat Hwf eq_refl)).
Defined.

Lemma transition_progress_bounded_witness :
  Forall dt_nonneg TestData.frames
  ∧ Forall (fun out =>
      exists q, transitionProgress (fst out) = Fin q ∧ 0 <= q ∧ q <= 1
                ∧ (q < 0.001 -> transitionProgress (fst out) = Fin 0))
      (fst (run (H := TestHost.host) TestData.cloud initial
              (clone TestData.cloud) TestData.frames 0%nat)).
Proof.
  assert (Forall dt_nonneg TestData.frames) as Hdt
    by (repeat constructor).
  split; [exact Hdt|].
  exact (proj1 (proj2 (transition_progress_bounded (H := TestHost.host)
                         TestData.cloud (clone TestData.cloud)
                         TestData.frames 0%nat Hdt))).
Defined.

(** A frame with [delta = 0] and a hand that has not moved: the speed of the
    hand is 0 / 0, the velocity is not a number, and it is reset to 0. *)
Lemma velocity_bounded_witness :
  let st := {| transitionProgress := Fin 0; swayX := Fin 0; swayY := Fin 0;
               vortexAngle := Fin 0; velocity := Fin 1.5;
               prevHandX := Fin 0.4; prevHandY := Fin 0.6;
               wasDetected := true |} in
  let f := {| delta := Fin 0; time := Fin 1;
              hand := {| gesture := NONE; x := Fin 0.4; y := Fin 0.6;
                         isDetected := true |};
              currentGesture := NONE |} in
  velocity_lerp (H := TestHost.host) st f = NaN
  ∧ velocity (advance (H := TestHost.host) st f) = Fin 0.
Proof.
  intros st f. split; [reflexivity|].
  destruct (proj2 (velocity_bounded (H := TestHost.host) TestData.cloud
                     (clone TestData.cloud) [] 0%nat) st f)
    as (-> & _ & _ & Hreset).
  apply Hreset; [|reflexivity|reflexivity].
  right. exists 1.5. split; [reflexivity|]. split; lra.
Defined.

Lemma safety_bounds_witness :
  well_formed TestData.cloud 2%nat
  ∧ all_finite
      (workingPositions
         (snd (after (H := TestHost.host) TestData.cloud initial
                 (clone TestData.cloud)
                 {| delta := Fin 0.016; time := Fin 0.016;
                    hand := TestData.no_hand; currentGesture := OPEN_PALM |} 0%nat))).
Proof.
  assert (well_formed TestData.cloud 2%nat) as Hwf by (repeat split).
  split; [exact Hwf|].
  apply (safety_bounds (H := TestHost.host) TestData.cloud 2%nat initial
           (clone TestData.cloud) _ 0%nat Hwf eq_refl).
  repeat constructor.
Defined.

End ExperienceFacts.

(* ------------------------------------------------------------------------- *)
(** ** The point-cloud builder *)
(* ------------------------------------------------------------------------- *)

Module GeometryFacts.
Import JS Geometry ExperienceSpec GeometrySpec JSFacts.

Lemma for_loop_invariant {T} (I : nat -> T -> Prop) (body : nat -> T -> Rand T) :
  (forall i s m, I i s -> I (S i) (fst (body i s m))) ->
  forall n from s m, I from s -> I (from + n) (fst (for_loop from n body s m)).
Proof.
  intros Hstep. induction n as [|n IH]; intros from s m Hs; simpl.
  - by replace (from + 0) with from by lia.
  - unfold bind. specialize (Hstep from s m Hs).
    destruct (body from s m) as [s' m']. simpl in Hstep.
    replace (from + S n) with (S from + n) by lia. by apply IH.
Qed.

#[local] Arguments generateAll : simpl never.
#[local] Arguments resolve_fallback : simpl never.
#[local] Arguments for_loop : simpl never.
#[local] Arguments onload : simpl never.

Lemma all_finite_set a i v :
  all_finite a -> isFinite v = true -> all_finite (set a i v).
Proof. intros Ha Hv. by apply Forall_insert. Qed.

Lemma all_finite_replicate n : all_finite (replicate n (Fin 0)).
Proof. by apply Forall_replicate. Qed.

Lemma sanitize_finite v : isFinite (sanitize v) = true.
Proof. unfold sanitize. by destruct (isFinite v) eqn:E. Qed.

Lemma sanitize_color_finite v : isFinite (sanitize_color v) = true.
Proof. unfold sanitize_color. by destruct (isFinite v) eqn:E. Qed.

Lemma add_finite u v :
  isFinite u = true -> isFinite v = true -> isFinite (add u v) = true.
Proof. by destruct u, v. Qed.

(** Writing back, at three indices, the entries of a list that agrees with
    the target everywhere else yields that list. *)
Lemma set_from a b i j k :
  length a = length b ->
  (forall l, l ≠ i -> l ≠ j -> l ≠ k -> a !! l = b !! l) ->
  set (set (set a i (get b i)) j (get b j)) k (get b k) = b.
Proof.
  intros Hlen Hrest. unfold set. apply list_eq. intros l.
  destruct (decide (l < length b)) as [Hl | Hl].
  - destruct (decide (l = k)) as [-> | Hk].
    { rewrite list_lookup_insert_eq by (rewrite !length_insert; lia).
      symmetry. by apply ExperienceFacts.get_lookup. }
    rewrite list_lookup_insert_ne by done.
    destruct (decide (l = j)) as [-> | Hj].
    { rewrite list_lookup_insert_eq by (rewrite !length_insert; lia).
      symmetry. by apply ExperienceFacts.get_lookup. }
    rewrite list_lookup_insert_ne by done.
    destruct (decide (l = i)) as [-> | Hi].
    { rewrite list_lookup_insert_eq by lia.
      symmetry. by apply ExperienceFacts.get_lookup. }
    rewrite list_lookup_insert_ne by done. by apply Hrest.
  - rewrite !(proj2 (lookup_ge_None _ _)); [done | lia |].
    rewrite !length_insert. lia.
Qed.

Section Build.
Context `{Host}.

Lemma Math_random_finite m : isFinite (fst (Math_random m)) = true.
Proof. done. Qed.

Lemma fallback_particle_size SCALE_Y m :
  (fst (fallback_particle SCALE_Y m)).2 = Fin 0.3.
Proof. done. Qed.

Lemma image_particle_size_finite w h sx sy px i m :
  isFinite (fst (image_particle w h sx sy px i m)).2 = true.
Proof.
  unfold image_particle, bind, ret, Math_random.
  by destruct (lt _ (Fin 50)).
Qed.

Lemma shape_particle_size_finite w h sx sy imgData i m :
  isFinite (fst (shape_particle w h sx sy imgData i m)).2 = true.
Proof.
  unfold shape_particle. destruct imgData as [px|]; [|done].
  destruct (gt w (Fin 0)); [apply image_particle_size_finite | done].
Qed.

(** One iteration of the loop keeps the lengths, the finiteness of every
    entry, and the positions on the image target. *)
Lemma fill_ok N w h sx sy imgData i a m :
  arrays_ok N a -> arrays_ok N (fst (fill w h sx sy imgData i a m)).
Proof.
  intros (Lp & Lt & Lc & Lk & Ls & Fp & Ft & Fc & Fk & Fs & Heq).
  unfold fill, bind, ret.
  pose proof (shape_particle_size_finite w h sx sy imgData i m) as Hsize.
  destruct (shape_particle w h sx sy imgData i m)
    as [[[[[dx dy] dz] [[r g] b]] size] m1].
  destruct (generateGalaxyShape m1) as [[[gx gy] gz] m2]. cbn [fst snd] in *.
  set (tt := set (set (set (a_targetTree a) (i * 3) (sanitize dx))
                   (i * 3 + 1) (add (sanitize dy) (Fin 2)))
               (i * 3 + 2) (sanitize dz)).
  assert (length tt = 3 * N) as Ltt by (unfold tt, set; by rewrite !length_insert).
  assert (all_finite tt) as Ftt.
  { unfold tt. repeat apply all_finite_set; try done;
      try apply sanitize_finite. apply add_finite; [apply sanitize_finite | done]. }
  assert (set (set (set (a_positions a) (i * 3) (get tt (i * 3)))
                (i * 3 + 1) (get tt (i * 3 + 1)))
            (i * 3 + 2) (get tt (i * 3 + 2)) = tt) as Hpos.
  { apply set_from; [lia|]. intros l Hi Hj Hk. rewrite Heq. unfold tt, set.
    by rewrite !list_lookup_insert_ne by done. }
  unfold arrays_ok. cbn [a_positions a_targetTree a_targetCloud a_colors a_sizes].
  rewrite Hpos. unfold set. rewrite !length_insert.
  repeat split; try done;
    repeat apply all_finite_set; try done;
    try apply sanitize_finite; try apply sanitize_color_finite.
Qed.

Lemma Qtrunc_int q z : q == inject_Z z -> Qtrunc q = z.
Proof.
  intros Hq. unfold Qtrunc.
  destruct (Qle_bool 0 q); rewrite Hq; [apply Qfloor_Z | apply Qceiling_Z].
Qed.

Lemma Float32Array_new_int q z :
  q == inject_Z z -> (0 <= z)%Z ->
  Float32Array_new (Fin q) = Some (replicate (Z.to_nat z) (Fin 0)).
Proof.
  intros Hq Hz. unfold Float32Array_new. rewrite (Qtrunc_int q z Hq).
  by rewrite (proj2 (Z.leb_le 0 z) Hz).
Qed.

Lemma allocate_int q z :
  q == inject_Z z -> (0 <= z)%Z ->
  exists a, allocate (Fin q) = Some a ∧ arrays_ok (Z.to_nat z) a
            ∧ a_sizes a = replicate (Z.to_nat z) (Fin 0).
Proof.
  intros Hq Hz. unfold allocate.
  assert ((q * 3 == inject_Z (z * 3))%Q) as H3
    by (rewrite inject_Z_mult, Hq; reflexivity).
  change (mul (Fin q) (Fin 3)) with (Fin (q * 3)).
  rewrite (Float32Array_new_int (q * 3) (z * 3) H3) by lia.
  rewrite (Float32Array_new_int q z Hq Hz). cbn [mbind option_bind].
  eexists. split; [reflexivity|]. split; [|done].
  unfold arrays_ok. cbn [a_positions a_targetTree a_targetCloud a_colors a_sizes].
  rewrite !length_replicate.
  repeat split; try apply all_finite_replicate; lia.
Qed.

Lemma allocate_PInf : allocate PInf = None.
Proof. done. Qed.

Lemma iterations_int q z : q == inject_Z z -> iterations (Fin q) = Z.to_nat z.
Proof. intros Hq. unfold iterations. by rewrite Hq, Qceiling_Z. Qed.

Lemma arrays_ok_complete N a : 1 ≤ N -> arrays_ok N a -> complete (to_data a).
Proof.
  intros HN (Lp & Lt & Lc & Lk & Ls & Fp & Ft & Fc & Fk & Fs & Heq).
  exists N. unfold well_formed. simpl. repeat split; done.
Qed.

(** [generateAll] on a particle count that is a whole number [z >= 1]: it
    returns a complete cloud of [z] particles. *)
Lemma generateAll_count w h ctx m q z :
  validCount w h = Fin q -> q == inject_Z z -> (1 <= z)%Z ->
  exists d, fst (generateAll w h ctx m) = Some d ∧ complete d
            ∧ particle_count d = z.
Proof.
  intros Hcount Hq Hz. unfold generateAll. rewrite Hcount.
  destruct (allocate_int q z Hq) as (a & -> & Hok & _); [lia|].
  unfold bind, ret.
  pose proof (for_loop_invariant (fun _ => arrays_ok (Z.to_nat z))
                (fill w h (mul (Fin 18) (if gt w (Fin 0) then div w h else Fin 0.6))
                   (Fin 18) (read_pixels w ctx))
                (fun i s m' Hs => fill_ok _ _ _ _ _ _ i s m' Hs)
                (iterations (Fin q)) 0 a m Hok) as Hloop.
  destruct (for_loop _ _ _ _ _) as [a' m']. cbn [fst] in *.
  eexists. split; [reflexivity|]. split.
  - apply (arrays_ok_complete (Z.to_nat z)); [lia | done].
  - unfold particle_count. cbn [to_data sizes].
    destruct Hloop as (_ & _ & _ & _ & -> & _). lia.
Qed.

Lemma sign_of_Z z : sign (of_Z z) = Z.sgn z.
Proof. done. Qed.

Lemma gt_of_Z z : gt (of_Z z) (Fin 0) = true <-> (0 < z)%Z.
Proof.
  unfold gt, of_Z. simpl. rewrite Qltb_lt. unfold Qlt. simpl. lia.
Qed.

(** The particle count for the sizes [Math.floor] may return: Infinity, or a
    whole number of at least 1. *)
Lemma validCount_floored w h :
  floored w -> floored h ->
  validCount w h = PInf
  ∨ exists q z, validCount w h = Fin q ∧ q == inject_Z z ∧ (1 <= z)%Z.
Proof.
  intros Hw Hh. unfold validCount.
  destruct (gt w (Fin 0)) eqn:Ew; cbn [andb];
    [destruct (gt h (Fin 0)) eqn:Eh|];
    try (right; exists 25000%Q, 25000%Z; split; [done|]; split; [done | lia]).
  destruct Hw as [[c ->] | Hw], Hh as [[r ->] | Hh].
  - apply gt_of_Z in Ew, Eh. right. exists (inject_Z c * inject_Z r)%Q, (c * r)%Z.
    split; [done|]. split; [by rewrite inject_Z_mult | nia].
  - apply gt_of_Z in Ew. destruct h as [?| | |]; try done. left.
    unfold mul. rewrite sign_of_Z. cbn [sign]. destruct c; try lia. done.
  - apply gt_of_Z in Eh. destruct w as [?| | |]; try done. left.
    unfold mul. rewrite sign_of_Z. cbn [sign]. destruct r; try lia. done.
  - destruct w as [?| | |], h as [?| | |]; try done. by left.
Qed.

(** [generateAll] on sizes that [Math.floor] returned: it throws or returns a
    complete cloud. *)
Lemma generateAll_floored w h ctx m :
  floored w -> floored h ->
  fst (generateAll w h ctx m) = None
  ∨ exists d, fst (generateAll w h ctx m) = Some d ∧ complete d.
Proof.
  intros Hw Hh.
  destruct (validCount_floored w h Hw Hh) as [Hinf | (q & z & Hc & Hq & Hz)].
  - left. unfold generateAll. by rewrite Hinf, allocate_PInf.
  - right. destruct (generateAll_count w h ctx m q z Hc Hq Hz) as (d & Hd & Hcd & _).
    eauto.
Qed.

Lemma Math_floor_floored v : floored (Math_floor v).
Proof. destruct v; [left; eexists; reflexivity | by right..]. Qed.

Lemma fill_sizes w h sx sy imgData i a m :
  a_sizes (fst (fill w h sx sy imgData i a m))
  = set (a_sizes a) i (fst (shape_particle w h sx sy imgData i m)).2.
Proof.
  unfold fill, bind, ret.
  destruct (shape_particle w h sx sy imgData i m)
    as [[[[[dx dy] dz] [[r g] b]] size] m1].
  by destruct (generateGalaxyShape m1) as [[[gx gy] gz] m2].
Qed.

(** Without pixel data every particle gets the size 0.3 of the procedural
    shape. *)
Lemma generateAll_procedural w h ctx m q z d :
  validCount w h = Fin q -> q == inject_Z z -> (1 <= z)%Z ->
  read_pixels w ctx = None ->
  fst (generateAll w h ctx m) = Some d -> procedural d.
Proof.
  intros Hcount Hq Hz Hpx. unfold generateAll. rewrite Hcount, Hpx.
  destruct (allocate_int q z Hq) as (a & -> & Hok & Hsz); [lia|].
  unfold bind, ret. rewrite (iterations_int q z Hq).
  set (N := Z.to_nat z) in *.
  pose proof (for_loop_invariant
                (fun k a => length (a_sizes a) = N
                            ∧ forall j, j < k -> j < N ->
                                        a_sizes a !! j = Some (Fin 0.3))
                (fill w h (mul (Fin 18) (if gt w (Fin 0) then div w h else Fin 0.6))
                   (Fin 18) None)) as Hinv.
  specialize (Hinv ltac:(
    intros i s m' [Hl Hs]; rewrite fill_sizes; unfold set;
    rewrite length_insert; split; [done|]; intros j Hj HjN;
    destruct (decide (j = i)) as [-> | Hne];
    [ by rewrite list_lookup_insert_eq by lia
    | rewrite list_lookup_insert_ne by done; apply Hs; lia ]) N 0 a m).
  destruct (for_loop _ _ _ _ _) as [a' m']. cbn [fst] in *.
  intros [= <-]. destruct Hinv as [Hl Hall].
  - split; [rewrite Hsz; apply length_replicate | intros; lia].
  - unfold procedural. cbn [to_data sizes]. apply Forall_lookup.
    intros j v Hv. pose proof (lookup_lt_Some _ _ _ Hv).
    rewrite Hall in Hv by lia. congruence.
Qed.

Lemma generateAll_fallback m :
  exists d, fst (generateAll (Fin 0) (Fin 0) None m) = Some d
            ∧ complete d ∧ procedural d
            ∧ particle_count d = count_of PARTICLE_COUNT.
Proof.
  destruct (generateAll_count (Fin 0) (Fin 0) None m 25000%Q 25000%Z)
    as (d & Hd & Hc & Hn); [done | done | lia |].
  exists d. split; [done|]. split; [done|]. split; [|done].
  by apply (generateAll_procedural (Fin 0) (Fin 0) None m 25000%Q 25000%Z).
Qed.

Lemma safeResolve_pending p d :
  hasResolved p = false -> settled p = Pending -> resolveCalls p = 0 ->
  safeResolve p d = resolved_with d.
Proof.
  destruct p as [hr st rc]. simpl. intros -> -> ->. done.
Qed.

Lemma safeResolve_done p d : hasResolved p = true -> safeResolve p d = p.
Proof. unfold safeResolve. by intros ->. Qed.

Lemma resolve_fallback_spec p m :
  exists d, fst (resolve_fallback p m) = safeResolve p d
            ∧ complete d ∧ procedural d
            ∧ particle_count d = count_of PARTICLE_COUNT.
Proof.
  destruct (generateAll_fallback m) as (d & Hd & Hrest).
  exists d. split; [|done]. unfold resolve_fallback, bind, ret.
  destruct (generateAll (Fin 0) (Fin 0) None m) as [r m']. simpl in *. by subst.
Qed.

Lemma grid_floored w h : floored (grid w h).1 ∧ floored (grid w h).2.
Proof. unfold grid. simpl. split; apply Math_floor_floored. Qed.

(** The grid of a loaded image never gives an infinite particle count. *)
Lemma grid_validCount w h :
  exists q z, validCount (grid w h).1 (grid w h).2 = Fin q
              ∧ q == inject_Z z ∧ (1 <= z)%Z.
Proof.
  destruct (grid_floored w h) as [Hc Hr].
  destruct (validCount_floored _ _ Hc Hr) as [Hinf | Hfin]; [|done].
  exfalso. unfold validCount in Hinf.
  destruct (gt (grid w h).1 (Fin 0)) eqn:Ec; cbn [andb] in Hinf; [|done].
  destruct (gt (grid w h).2 (Fin 0)) eqn:Er; [|done].
  unfold grid in *. cbn [fst snd] in *.
  destruct (Math_floor (Math_sqrt _)) as [c| | |] eqn:Ecols; try done.
  destruct (Qeq_bool c 0) eqn:Ez.
  - apply Qeq_bool_iff in Ez. unfold gt in Ec. simpl in Ec.
    apply Qltb_lt in Ec. lra.
  - unfold div, PARTICLE_COUNT in *. rewrite Ez in *. done.
Qed.

(** [img.onload] always reaches [safeResolve] with a complete cloud. *)
Lemma onload_spec w h ctx p m :
  exists d, fst (onload w h ctx p m) = safeResolve p d ∧ complete d.
Proof.
  unfold onload. destruct ctx as [c|].
  - destruct (grid w h) as [cols rows] eqn:Eg.
    destruct (drawImage_returns c).
    + unfold bind.
      pose proof (grid_floored w h) as [Hc Hr]. rewrite Eg in *. simpl in *.
      destruct (generateAll_floored cols rows (Some c) m Hc Hr)
        as [Hnone | (d & Hd & Hcd)];
        destruct (generateAll cols rows (Some c) m) as [r m']; simpl in *; subst.
      * destruct (resolve_fallback_spec p m') as (d & Hd & Hc' & _). eauto.
      * exists d. done.
    + destruct (resolve_fallback_spec p m) as (d & Hd & Hc' & _). eauto.
  - destruct (resolve_fallback_spec p m) as (d & Hd & Hc' & _). eauto.
Qed.

Lemma handle_spec p e m :
  exists d, fst (handle p e m) = safeResolve p d ∧ complete d.
Proof.
  destruct e as [w h ctx| |]; cbn [handle].
  - apply onload_spec.
  - unfold onerror. destruct (resolve_fallback_spec p m) as (d & Hd & Hc & _). eauto.
  - unfold ontimeout. destruct (hasResolved p) eqn:E; cbn [negb].
    + destruct (generateAll_fallback m) as (d & _ & Hc & _).
      exists d. by rewrite safeResolve_done.
    + destruct (resolve_fallback_spec p m) as (d & Hd & Hc & _). eauto.
Qed.

(** Once [hasResolved] is set, every callback leaves the promise as it is. *)
Lemma handle_resolved p e m : hasResolved p = true -> fst (handle p e m) = p.
Proof.
  intros Hp. destruct (handle_spec p e m) as (d & -> & _).
  by apply safeResolve_done.
Qed.

Lemma later_events events p m :
  hasResolved p = true -> fst (generateParticlesFromImage events p m) = p.
Proof.
  revert p m. induction events as [|e events IH]; intros p m Hp; simpl; [done|].
  unfold bind. pose proof (handle_resolved p e m Hp) as He.
  destruct (handle p e m) as [p' m']. simpl in He. subst p'. by apply IH.
Qed.

Lemma first_event e events m :
  fst (generateParticlesFromImage (e :: events) pending m)
  = fst (handle pending e m).
Proof.
  simpl. unfold bind. destruct (handle_spec pending e m) as (d & Hd & _).
  destruct (handle pending e m) as [p' m']. simpl in *. subst p'.
  by apply later_events.
Qed.

(** C5: whatever callbacks fire, and in whatever order, the cloud the promise
    resolves with has positions, targetTree, targetCloud and colors of length
    3N and sizes of length N for one N >= 1, only finite entries, and
    positions equal to targetTree. *)
Theorem build_complete e events m :
  exists d N,
    settled (fst (generateParticlesFromImage (e :: events) pending m))
    = Resolved d
    ∧ 1 ≤ N
    ∧ length (positions d) = 3 * N ∧ length (targetTree d) = 3 * N
    ∧ length (targetCloud d) = 3 * N ∧ length (colors d) = 3 * N
    ∧ length (sizes d) = N
    ∧ all_finite (positions d) ∧ all_finite (targetTree d)
    ∧ all_finite (targetCloud d) ∧ all_finite (colors d)
    ∧ all_finite (sizes d)
    ∧ positions d = targetTree d.
Proof.
  rewrite first_event.
  destruct (handle_spec pending e m)
    as (d & -> & N & HN & (L1 & L2 & L3 & L4 & L5) & F1 & F2 & F3 & F4 & F5 & Heq).
  exists d, N. repeat split; done.
Qed.

(** C6: whatever callbacks fire after the first one, [resolve] is called
    exactly once, the promise is resolved (never rejected, never left pending)
    with the complete cloud of the first callback, and a callback that runs
    once [hasResolved] is set changes nothing. *)
Theorem build_settles_once e events m :
  let p := fst (generateParticlesFromImage (e :: events) pending m) in
  resolveCalls p = 1
  ∧ hasResolved p = true
  ∧ (exists d, settled p = Resolved d ∧ complete d
               ∧ fst (handle pending e m) = resolved_with d)
  ∧ settled p ≠ Rejected ∧ settled p ≠ Pending
  ∧ (forall p' e' m', hasResolved p' = true -> fst (handle p' e' m') = p')
  ∧ resolveCalls (fst (generateParticlesFromImage [] pending m)) = 0.
Proof.
  intros p. subst p. rewrite first_event.
  destruct (handle_spec pending e m) as (d & -> & Hc).
  rewrite safeResolve_pending by done. simpl.
  split; [done|]. split; [done|]. split; [by exists d|].
  split; [done|]. split; [done|]. split; [apply handle_resolved | done].
Qed.




End Build.



End GeometryFacts.

(* ------------------------------------------------------------------------- *)
(** ** Further properties of the stabilizer and the classifier *)
(* ------------------------------------------------------------------------- *)

Module HandTrackerMore.
Import JS HandTracker HandTrackerSpec HandTrackerFacts.

Lemma push_slice h r :
  length h ≤ STABILITY_FRAMES -> push h r = slice_last STABILITY_FRAMES (h ++ [r]).
Proof.
  unfold STABILITY_FRAMES, push, slice_last. intros Hlen.
  rewrite length_app. cbn [length].
  case_bool_decide as Hc; unfold STABILITY_FRAMES in Hc.
  - replace (length h + 1 - 5) with 1 by lia. by destruct (h ++ [r]).
  - replace (length h + 1 - 5) with 0 by lia. by rewrite drop_0.
Qed.

Lemma slice_last_snoc {A} n (l : list A) (a : A) :
  0 < n -> slice_last n (slice_last n l ++ [a]) = slice_last n (l ++ [a]).
Proof.
  intros Hn. unfold slice_last.
  rewrite !length_app, length_drop. cbn [length].
  destruct (decide (length l ≤ n)) as [Hle | Hgt].
  - replace (length l - n) with 0 by lia. rewrite drop_0.
    by replace (length l - 0 + 1 - n) with (length l + 1 - n) by lia.
  - replace (length l - (length l - n) + 1 - n) with 1 by lia.
    replace (length l + 1 - n) with ((length l - n) + 1) by lia.
    rewrite <- (drop_drop (l ++ [a])). f_equal.
    rewrite drop_app_le by lia. done.
Qed.

Lemma slice_last_length_le {A} n (l : list A) : length (slice_last n l) ≤ n.
Proof. rewrite slice_last_length. lia. Qed.

Lemma feed_history raws :
  gestureHistory (feed initial raws) = slice_last STABILITY_FRAMES raws.
Proof.
  induction raws as [|r raws IH] using rev_ind; [done|].
  rewrite feed_snoc. cbn [stabilize gestureHistory]. rewrite IH.
  rewrite push_slice by apply slice_last_length_le.
  apply slice_last_snoc. unfold STABILITY_FRAMES. lia.
Qed.

(** X1: throughout a session the history holds exactly the last five raw
    classifications, all of them while there are fewer than five. *)
Theorem history_is_last_five raws :
  gestureHistory (feed initial raws) = slice_last STABILITY_FRAMES raws
  ∧ length (gestureHistory (feed initial raws)) = STABILITY_FRAMES `min` length raws.
Proof.
  rewrite feed_history. split; [done | apply slice_last_length].
Qed.

(** A push keeps every recent entry: the history is a suffix of the old one
    followed by the new entry. *)
Lemma push_suffix h k r :
  length k < STABILITY_FRAMES -> exists h', push (h ++ k) r = h' ++ k ++ [r].
Proof.
  unfold STABILITY_FRAMES, push. intros Hk.
  rewrite !length_app. cbn [length]. case_bool_decide as Hc;
    unfold STABILITY_FRAMES in Hc.
  - destruct h as [|a h]; [simpl in Hc; lia|].
    exists h. cbn [app tail]. by rewrite <- app_assoc.
  - exists h. by rewrite <- app_assoc.
Qed.

(** X2: three NONE frames in a row confirm NONE, whatever came before. *)
Theorem three_none_confirm s :
  lastConfirmedGesture (feed s [NONE; NONE; NONE]) = NONE.
Proof.
  change (feed s [NONE; NONE; NONE])
    with (stabilize (stabilize (stabilize s NONE) NONE) NONE).
  destruct (push_suffix (gestureHistory s) [] NONE) as [h1 H1];
    [unfold STABILITY_FRAMES; simpl; lia|].
  rewrite app_nil_r in H1.
  remember (stabilize s NONE) as s1 eqn:Hs1.
  assert (gestureHistory s1 = h1 ++ [NONE]) as E1 by (by subst s1).
  clear Hs1 H1.
  destruct (push_suffix h1 [NONE] NONE) as [h2 H2];
    [unfold STABILITY_FRAMES; simpl; lia|].
  remember (stabilize s1 NONE) as s2 eqn:Hs2.
  assert (gestureHistory s2 = h2 ++ [NONE; NONE]) as E2
    by (subst s2; cbn [stabilize gestureHistory]; by rewrite E1).
  clear Hs2 H2 E1.
  destruct (push_suffix h2 [NONE; NONE] NONE) as [h3 H3];
    [unfold STABILITY_FRAMES; simpl; lia|].
  unfold stabilize. cbn [lastConfirmedGesture]. rewrite E2, H3.
  assert (quickLost (h3 ++ [NONE; NONE] ++ [NONE]) NONE = true) as ->.
  { unfold quickLost, slice_last. rewrite length_app. cbn [length app].
    replace (length h3 + 3 - 3) with (length h3) by lia.
    by rewrite drop_app_length. }
  by rewrite orb_true_r.
Qed.

Lemma slice_last_all {A} n (l : list A) :
  length (slice_last n l) = n ->
  exists pre, l = pre ++ slice_last n l.
Proof.
  intros _. exists (take (length l - n) l). unfold slice_last.
  by rewrite take_drop.
Qed.

(** X3: a gesture other than NONE is confirmed only if it was the raw
    classification of five frames in a row; in particular nothing but NONE is
    confirmed during the first four frames of a session. *)
Theorem confirmed_was_seen_five_times raws g :
  lastConfirmedGesture (feed initial raws) = g -> g ≠ NONE ->
  (exists before after, raws = before ++ replicate 5 g ++ after)
  ∧ 5 ≤ length raws.
Proof.
  intros Hconf Hg.
  assert (exists before after, raws = before ++ replicate 5 g ++ after) as Hex.
  { revert Hconf. induction raws as [|r raws IH] using rev_ind.
    - simpl. congruence.
    - rewrite feed_snoc. intros Hconf.
      destruct (decide (lastConfirmedGesture (feed initial raws) = g)) as [Hold | Hnew].
      + destruct (IH Hold) as (b & a & ->). exists b, (a ++ [r]).
        by rewrite <- !app_assoc.
      + unfold stabilize in Hconf. cbn [lastConfirmedGesture] in Hconf.
        rewrite feed_history in Hconf.
        rewrite push_slice in Hconf by apply slice_last_length_le.
        rewrite slice_last_snoc in Hconf by (unfold STABILITY_FRAMES; lia).
        destruct (allMatch _ r) eqn:Hall; cbn [orb] in Hconf.
        * subst r. unfold allMatch in Hall. apply andb_true_iff in Hall as [Hl He].
          apply bool_decide_eq_true in Hl.
          destruct (slice_last_all STABILITY_FRAMES (raws ++ [g]) Hl) as [pre Hpre].
          exists pre, []. rewrite app_nil_r. rewrite Hpre at 1. f_equal.
          apply every_Forall in He. symmetry.
          apply replicate_as_Forall. split; [exact Hl|].
          eapply Forall_impl; [exact He|]. intros a Ha.
          by apply bool_decide_eq_true in Ha.
        * destruct (quickLost _ r) eqn:Hq; [|done].
          unfold quickLost in Hq. apply andb_true_iff in Hq as [Hr _].
          apply bool_decide_eq_true in Hr. congruence. }
  split; [exact Hex|]. destruct Hex as (b & a & ->).
  rewrite !length_app, length_replicate. lia.
Qed.

Lemma confirmed_was_seen_five_times_witness :
  let raws := [CLOSED_FIST; PINCH; PINCH; PINCH; PINCH; PINCH; NONE] in
  lastConfirmedGesture (feed initial raws) = PINCH
  ∧ exists before after, raws = before ++ replicate 5 PINCH ++ after.
Proof.
  intros raws. split; [reflexivity|].
  apply (confirmed_was_seen_five_times raws PINCH eq_refl). discriminate.
Defined.

Section Classification.
Context `{Host}.

(** X4: the classifier on its edge cases: without a hand it reports NONE at the
    centre, not detected; a first hand with fewer than 21 landmarks makes it
    throw, and then nothing is pushed or reported; with 21 or more it
    returns. *)
Theorem classify_edges :
  classify [] = Some (NONE, Fin 0.5, Fin 0.5, false)
  ∧ (forall s, exists s',
       predictWebcam s [] = Some (s', {| gesture := lastConfirmedGesture s';
                                        x := Fin 0.5; y := Fin 0.5;
                                        isDetected := false |})
       ∧ s' = stabilize s NONE)
  ∧ (forall landmarks others,
       length landmarks < 21 ->
       classify (landmarks :: others) = None
       ∧ forall s, predictWebcam s (landmarks :: others) = None)
  ∧ (forall landmarks others,
       21 ≤ length landmarks -> is_Some (classify (landmarks :: others))).
Proof.
  split; [done|]. split; [intros s; by eexists|]. split.
  - intros landmarks others Hlen.
    assert (classify (landmarks :: others) = None) as Hc.
    { do 21 (destruct landmarks as [|? landmarks]; [reflexivity|]).
      simpl in Hlen. lia. }
    split; [exact Hc|]. intros s. unfold predictWebcam. by rewrite Hc.
  - intros landmarks others Hlen.
    do 21 (destruct landmarks as [|? landmarks]; [simpl in Hlen; lia|]).
    cbn -[lt div add sub mul foldl]. by eexists.
Qed.

End Classification.

End HandTrackerMore.

(* ------------------------------------------------------------------------- *)
(** ** Further properties of the integrator *)
(* ------------------------------------------------------------------------- *)

Module ExperienceMore.
Import JS MathUtils Experience ExperienceSpec JSFacts ExperienceFacts.
Local Open Scope Q_scope.

Lemma lerp_Fin a b t :
  lerp (Fin a) (Fin b) (Fin t) = Fin ((1 + - t) * a + t * b).
Proof. reflexivity. Qed.

Lemma progress_ok_unit tp :
  progress_ok tp -> exists p, tp = Fin p ∧ 0 <= p ∧ p <= 1 ∧ (p < 0.001 -> p == 0).
Proof.
  intros [-> | (q & -> & H0 & H1)].
  - exists 0. split; [done|]. split; [lra|]. split; [lra|]. intros; lra.
  - exists q. split; [done|]. split; [lra|]. split; [lra|]. intros; lra.
Qed.

(** X5: while the gesture is not OPEN_PALM the particles only reform: for a
    progress in [0, 1] and [delta >= 0] one call never increases the
    transition progress and never takes it below 0, and a progress below
    0.001 (0 itself included) is 0 after the call. *)
Theorem progress_recedes tp f
    (Htp : within 0 1 tp) (Hdt : dt_nonneg f)
    (Hg : currentGesture f ≠ OPEN_PALM) :
  exists p p', tp = Fin p ∧ next_progress tp f = Fin p'
    ∧ 0 <= p' ∧ p' <= p
    ∧ (p < 0.001 -> next_progress tp f = Fin 0).
Proof.
  destruct Htp as (p & -> & Hp0 & Hp1).
  destruct (safeDelta_range f Hdt) as (s & Hs & Hs0 & Hs1).
  exists p. unfold next_progress. rewrite (progress_lerp_Fin p f s Hs).
  destruct (targetT_cases f) as [(Ho & _) | (_ & HT & HS)]; [done|].
  rewrite HT, HS. cbn [value lt].
  destruct (Qltb _ 0.001) eqn:E.
  - exists 0. split; [done|]. split; [done|]. split; [lra|]. split; [lra | done].
  - apply Qltb_ge in E. eexists. split; [done|]. split; [reflexivity|].
    split; [nra|]. split; [nra|]. intros Hlt. exfalso. nra.
Qed.

Lemma progress_recedes_witness :
  let f := {| delta := Fin 0.016; time := Fin 1; hand := TestData.no_hand;
              currentGesture := CLOSED_FIST |} in
  exists p', next_progress (Fin 0.5) f = Fin p' ∧ 0 <= p' ∧ p' <= 0.5.
Proof.
  intros f.
  destruct (progress_recedes (Fin 0.5) f) as (p & p' & Hp & Hn & Hlo & Hhi & _).
  - exists 0.5. split; [reflexivity|]. split; lra.
  - reflexivity.
  - discriminate.
  - exists p'. split; [exact Hn|]. injection Hp as <-. split; [exact Hlo | exact Hhi].
Defined.

Section Refs.
Context `{Host}.

Lemma targetVelocity_idle st f :
  isDetected (hand f) = false ∨ wasDetected st = false ->
  targetVelocity st f = Fin 0.
Proof.
  unfold targetVelocity. intros [-> | ->]; [done|].
  by destruct (isDetected (hand f)).
Qed.

(** X6: a hand that is not detected, or is detected for the first time, gives
    the target velocity 0: the velocity does not rise on that call. *)
Theorem no_velocity_spike st f
    (Hv : velocity_ok (velocity st)) (Hdt : dt_nonneg f)
    (Hidle : isDetected (hand f) = false ∨ wasDetected st = false) :
  targetVelocity st f = Fin 0
  ∧ exists v v', velocity st = Fin v ∧ velocity (advance st f) = Fin v'
                 ∧ 0 <= v' ∧ v' <= v.
Proof.
  pose proof (targetVelocity_idle st f Hidle) as Htv. split; [exact Htv|].
  destruct (velocity_ok_range _ Hv) as (v & Hvel & Hv0 & Hv3 & _).
  destruct (safeDelta_range f Hdt) as (s & Hs & Hs0 & Hs1).
  exists v. cbn [advance velocity]. unfold next_velocity, velocity_lerp.
  rewrite Htv, Hs, Hvel.
  assert (forall k, 0 <= k -> k <= 4 ->
            exists v', (let u := lerp (Fin v) (Fin 0) (mul (Fin s) (Fin k)) in
                        let u := if lt u (Fin 0.01) then Fin 0 else u in
                        let u := if gt u (Fin 3.0) then Fin 3.0 else u in
                        if isNaN u then Fin 0 else u) = Fin v'
                       ∧ 0 <= v' ∧ v' <= v) as Hk.
  { intros k Hk0 Hk4. cbv zeta. change (mul (Fin s) (Fin k)) with (Fin (s * k)).
    assert (0 <= s * k ∧ s * k <= 0.2) as [Ha0 Ha1] by (split; nra).
    remember (s * k) as a eqn:Hak. clear Hak.
    rewrite lerp_Fin. cbn [lt]. destruct (Qltb _ 0.01) eqn:E1.
    - exists 0. split; [reflexivity|]. split; lra.
    - apply Qltb_ge in E1. unfold gt. cbn [lt].
      destruct (Qltb 3.0 _) eqn:E2.
      + apply Qltb_lt in E2. exfalso. nra.
      + eexists. split; [reflexivity|]. split; nra. }
  destruct (lt (Fin 0) (Fin v)).
  - destruct (Hk 4.0) as (v' & Hv' & Hb); [lra | lra |]. exists v'.
    split; [done|]. split; [exact Hv' | exact Hb].
  - destruct (Hk 2.0) as (v' & Hv' & Hb); [lra | lra |]. exists v'.
    split; [done|]. split; [exact Hv' | exact Hb].
Qed.

(** X7: the vortex never turns back: a call with [delta >= 0] adds the
    product of two numbers that are not negative, so the angle does not
    decrease, and it stands still while the velocity is 0. *)
Theorem vortex_advances st f a
    (Ha : vortexAngle st = Fin a) (Hdt : dt_nonneg f) :
  exists a', vortexAngle (advance st f) = Fin a'
             ∧ a <= a'
             ∧ (velocity (advance st f) = Fin 0 -> a' == a).
Proof.
  destruct (safeDelta_range f Hdt) as (s & Hs & Hs0 & Hs1).
  destruct (velocity_ok_range _ (next_velocity_ok st f)) as (v & Hv & Hv0 & Hv3 & _).
  cbn [advance vortexAngle velocity]. rewrite Ha, Hs, Hv.
  eexists. split; [reflexivity|]. split; [nra|].
  intros [= ->]. ring.
Qed.

End Refs.

Section Rest.
Context `{Host}.

(** X9: while no hand is detected the integrator stays at rest: the velocity is
    0, the vortex does not turn and the cloud does not sway. *)
Theorem rest_without_hand data bufs frames n
    (Hframes : Forall (fun f => dt_nonneg f ∧ isDetected (hand f) = false) frames) :
  Forall (fun out =>
      velocity (fst out) = Fin 0
      ∧ equiv (vortexAngle (fst out)) (Fin 0)
      ∧ equiv (swayX (fst out)) (Fin 0)
      ∧ equiv (swayY (fst out)) (Fin 0)
      ∧ wasDetected (fst out) = false)
    (fst (run data initial bufs frames n)).
Proof.
  apply (run_invariant
           (fun st => velocity st = Fin 0
                      ∧ equiv (vortexAngle st) (Fin 0)
                      ∧ equiv (swayX st) (Fin 0)
                      ∧ equiv (swayY st) (Fin 0)
                      ∧ wasDetected st = false)
           (fun f => dt_nonneg f ∧ isDetected (hand f) = false) data);
    [| |exact Hframes].
  - intros st f (Hv & Ha & Hx & Hy & Hw) [Hdt Hnd].
    destruct (safeDelta_range f Hdt) as (s & Hs & Hs0 & Hs1).
    assert (next_velocity st f = Fin 0) as Hnv.
    { apply next_velocity_snap. unfold velocity_lerp.
      rewrite (targetVelocity_idle st f (or_introl Hnd)), Hv, Hs.
      change (lt (Fin 0) (Fin 0)) with false. cbv iota.
      change (mul (Fin s) (Fin 2.0)) with (Fin (s * 2.0)). rewrite lerp_Fin.
      cbn [lt]. apply Qltb_lt. lra. }
    cbn [advance velocity vortexAngle swayX swayY wasDetected].
    rewrite Hnv, Hnd, Hs. cbn [andb].
    destruct (vortexAngle st) as [a| | |]; try done.
    destruct (swayX st) as [sx| | |]; try done.
    destruct (swayY st) as [sy| | |]; try done.
    cbn [equiv] in *. change (mul (Fin s) (Fin 3)) with (Fin (s * 3)).
    rewrite !lerp_Fin. cbn [mul add equiv].
    split; [done|]. split; [rewrite Ha; ring|].
    split; [rewrite Hx; ring|]. split; [rewrite Hy; ring | done].
  - repeat split; reflexivity.
Qed.

End Rest.

Lemma rest_without_hand_witness :
  Forall (fun out =>
      velocity (fst out) = Fin 0
      ∧ equiv (vortexAngle (fst out)) (Fin 0)
      ∧ equiv (swayX (fst out)) (Fin 0)
      ∧ equiv (swayY (fst out)) (Fin 0)
      ∧ wasDetected (fst out) = false)
    (fst (run (H := TestHost.host) TestData.cloud initial
            (clone TestData.cloud) TestData.frames 0%nat)).
Proof.
  apply rest_without_hand. repeat constructor.
Defined.

Lemma foldl_setX_length g a l :
  length (foldl (fun a i => setX a i (g i)) a l) = length a.
Proof.
  revert a. induction l as [|i l IH]; intros a; simpl; [done|].
  rewrite IH. unfold setX, set. by rewrite length_insert.
Qed.

Lemma foldl_setX_lookup (g : nat -> num) a n (j : nat) :
  (j < length a)%nat -> (j < n)%nat ->
  foldl (fun a i => setX a i (g i)) a (seq 0 n) !! j = Some (g j).
Proof.
  intros Hja. induction n as [|n IH]; intros Hjn; [lia|].
  rewrite seq_S, foldl_app. cbn [foldl Nat.add]. unfold setX at 1, set.
  destruct (decide (j = n)) as [-> | Hne].
  - apply list_lookup_insert_eq. by rewrite foldl_setX_length.
  - rewrite list_lookup_insert_ne by done. apply IH. lia.
Qed.

Lemma smoothstep_unit tp :
  progress_ok tp ->
  exists t, smoothstep tp (Fin 0) (Fin 1) = Fin t ∧ 0 <= t ∧ t <= 1.
Proof.
  intros Htp. destruct (progress_ok_unit tp Htp) as (p & -> & Hp0 & Hp1 & _).
  unfold smoothstep, ge. cbn [le].
  destruct (Qle_bool p 0) eqn:E0.
  { exists 0. split; [done|]. split; lra. }
  destruct (Qle_bool 1 p) eqn:E1.
  { exists 1. split; [done|]. split; lra. }
  assert (0 < p) as Hpos.
  { apply Qnot_le_lt. intros Hle. apply Qle_bool_iff in Hle. congruence. }
  assert (p < 1) as Hlt.
  { apply Qnot_le_lt. intros Hle. apply Qle_bool_iff in Hle. congruence. }
  eexists. split; [reflexivity|].
  assert ((p + - 0) / (1 + - 0) == p) as -> by field.
  split; [nra|].
  assert (0 <= (1 - p) * (1 - p)) as Hsq by nra.
  assert (0 <= (1 - p) * (1 - p) * (1 + 2 * p)) as Hprod
    by (apply Qmult_le_0_compat; lra).
  assert (1 - p * p * (3 + - (2 * p)) == (1 - p) * (1 - p) * (1 + 2 * p)) as Heq
    by ring.
  lra.
Qed.

Section Particles.
Context `{Host}.

Lemma foldl_body_sizes data st smoothT time n0 l bufs :
  workingSizes (foldl (body_pure data st smoothT time n0) bufs l)
  = foldl (fun a i => setX a i (particle_size data st smoothT i))
      (workingSizes bufs) l.
Proof. revert bufs. induction l as [|i l IH]; intros bufs; simpl; [done|]. by rewrite IH. Qed.

Lemma after_sizes_lookup data N st bufs f n (i : nat) :
  length (positions data) = (3 * N)%nat ->
  length (workingSizes bufs) = N -> (i < N)%nat ->
  workingSizes (snd (after data st bufs f n)) !! i
  = Some (written_size data (advance st f) i).
Proof.
  intros Hlen Hbuf Hi. rewrite (after_eq data N) by done. cbn [snd].
  rewrite foldl_body_sizes. apply foldl_setX_lookup; lia.
Qed.

Lemma advance_velocity_range st f :
  exists v, velocity (advance st f) = Fin v ∧ 0 <= v ∧ v <= 3.
Proof.
  destruct (velocity_ok_range _ (next_velocity_ok st f)) as (v & Hv & H0 & H3 & _).
  exists v. done.
Qed.

(** X11: the size written for a particle is its base size, or that size scaled by
    a factor between 1 and 2.5: a particle of base size 0 (a transparent
    pixel) stays invisible in every call. *)
Theorem sizes_scaled data N st bufs f n i b
    (Hwf : well_formed data N)
    (Hbuf : length (workingSizes bufs) = N)
    (Hsize : sizes data !! i = Some (Fin b)) :
  exists w, workingSizes (snd (after data st bufs f n)) !! i = Some (Fin w)
            ∧ (b == 0 -> w == 0)
            ∧ (0 <= b -> b <= w ∧ w <= 2.5 * b).
Proof.
  destruct Hwf as (Hp & _ & _ & _ & Hs).
  assert (i < N)%nat as Hi by (apply lookup_lt_Some in Hsize; lia).
  rewrite (after_sizes_lookup data N) by done.
  unfold written_size, particle_size, get. rewrite Hsize. cbn [default].
  destruct (advance_velocity_range st f) as (v & -> & Hv0 & Hv3).
  destruct (gt _ (Fin 0.1) && gt (Fin v) (Fin 0.1)).
  - eexists. split; [reflexivity|]. cbn [mul add]. split; [intros ->; ring|].
    intros Hb. split; nra.
  - exists b. split; [done|]. split; [done|]. intros Hb. split; lra.
Qed.

(** X12: nine particles of ten always keep their base color; a boosted component
    is raised by at most 1.2. *)
Theorem sparkle_bounded data N st bufs f n
    (Hwf : well_formed data N)
    (Hbuf : length (workingColors bufs) = (3 * N)%nat) :
  let out := workingColors (snd (after data st bufs f n)) in
  (forall i, (i < N)%nat -> (i `mod` 10 ≠ 0)%nat ->
     triple out i = triple (colors data) i)
  ∧ (progress_ok (transitionProgress st) -> dt_nonneg f ->
     forall i k c, (i < N)%nat -> (k < 3)%nat ->
       colors data !! (i * 3 + k)%nat = Some (Fin c) ->
       exists w, out !! (i * 3 + k)%nat = Some (Fin w) ∧ c <= w ∧ w <= c + 1.2).
Proof.
  intros out. destruct Hwf as (Hp & _ & _ & Hc & _).
  assert (forall i k, (i < N)%nat -> (k < 3)%nat ->
            out !! (i * 3 + k)%nat
            = Some (component k
                      (particle_color data (advance st f)
                         (smoothT_of (advance st f)) i))) as Hout.
  { intros i k Hi Hk. unfold out.
    rewrite (after_colors_lookup data N) by (done || lia).
    by destruct (index_join i k Hk) as [-> ->]. }
  split.
  - intros i Hi Hmod.
    assert (particle_color data (advance st f) (smoothT_of (advance st f)) i
            = triple (colors data) i) as Hbase.
    { unfold particle_color. by rewrite bool_decide_false by done. }
    unfold triple at 1. unfold get.
    rewrite <- (Nat.add_0_r (i * 3)) at 1.
    rewrite !Hout by lia. rewrite Hbase. reflexivity.
  - intros Htp Hdt i k c Hi Hk Hcol. rewrite Hout by done.
    destruct (advance_velocity_range st f) as (v & Hv & Hv0 & Hv3).
    destruct (smoothstep_unit (transitionProgress (advance st f)))
      as (t & Ht & Ht0 & Ht1); [by apply next_progress_ok|].
    unfold particle_color, smoothT_of. rewrite Hv, Ht.
    assert (get (colors data) (i * 3 + k) = Fin c) as Hget
      by (unfold get; by rewrite Hcol).
    destruct (_ && _ && _).
    + change (mul (Fin v) (Fin t)) with (Fin (v * t)).
      assert (exists bst, Math_min (Fin (v * t)) (Fin 1.2) = Fin bst
                          ∧ 0 <= bst ∧ bst <= 1.2) as (bst & -> & Hb0 & Hb1).
      { cbn [Math_min lt]. destruct (Qltb 1.2 (v * t)) eqn:E.
        - exists 1.2. split; [done|]. split; lra.
        - apply Qltb_ge in E. exists (v * t). split; [done|]. split; [nra | lra]. }
      exists (c + bst).
      destruct k as [|[|[|k]]]; try lia; cbn [component fst snd];
        rewrite ?Nat.add_0_r in Hget; rewrite Hget;
        (split; [reflexivity|]); split; lra.
    + exists c.
      destruct k as [|[|[|k]]]; try lia; cbn [component fst snd];
        rewrite ?Nat.add_0_r in Hget; rewrite Hget;
        (split; [reflexivity|]); split; lra.
Qed.

Lemma le_abs_finite d : le (Math_abs d) (Fin 200) = true -> isFinite d = true.
Proof. by destruct d. Qed.

(** X13: when every image-target coordinate has magnitude at most 200, so has
    every coordinate the call writes. *)
Theorem positions_in_bounds data N st bufs f n
    (Hwf : well_formed data N)
    (Hbuf : length (workingPositions bufs) = (3 * N)%nat)
    (Htree : Forall (fun d => le (Math_abs d) (Fin 200) = true) (targetTree data)) :
  Forall (fun p => le (Math_abs p) (Fin 200) = true)
    (workingPositions (snd (after data st bufs f n))).
Proof.
  destruct Hwf as (Hp & Ht & _).
  apply Forall_lookup. intros j v Hv.
  assert (j < 3 * N)%nat as Hj.
  { apply lookup_lt_Some in Hv.
    pose proof (after_lengths data N st bufs f n Hp) as [Hl _]. lia. }
  rewrite (after_positions_lookup data N) in Hv by done.
  destruct (index_split j) as [Hsplit Hmod].
  remember (j / 3)%nat as q eqn:Hq. remember (j `mod` 3)%nat as r eqn:Hr.
  clear Hq Hr.
  assert (v = component r
            (written_position data (advance st f) (smoothT_of (advance st f))
               (time f) n q)) as -> by congruence.
  rewrite written_bound. cbv zeta.
  assert (forall k, (k < 3)%nat ->
            le (Math_abs (get (targetTree data) (q * 3 + k))) (Fin 200) = true)
    as Hd.
  { intros k Hk. rewrite Forall_lookup in Htree.
    apply (Htree (q * 3 + k)%nat). apply get_lookup. lia. }
  pose proof (Hd 0%nat ltac:(lia)) as H0. rewrite Nat.add_0_r in H0.
  destruct r as [|[|r]]; cbn [component fst snd];
    apply bound_magnitude; auto using le_abs_finite;
    try apply le_abs_finite; apply Hd; lia.
Qed.

Lemma motion_reformed data st time i m :
  particle_motion data st (Fin 0) time i m
  = (add (get (targetTree data) (i * 3))
       (mul (sub (get (targetCloud data) (i * 3)) (get (targetTree data) (i * 3)))
          (Fin 0)),
     add (get (targetTree data) (i * 3 + 1))
       (mul (sub (get (targetCloud data) (i * 3 + 1))
               (get (targetTree data) (i * 3 + 1))) (Fin 0)),
     add (add (get (targetTree data) (i * 3 + 2))
            (mul (sub (get (targetCloud data) (i * 3 + 2))
                    (get (targetTree data) (i * 3 + 2))) (Fin 0)))
       (mul (Math_sin (add (mul time (Fin 1.5))
                         (mul (get (targetTree data) (i * 3)) (Fin 0.5))))
          (Fin 0.05)),
     m).
Proof. reflexivity. Qed.

Lemma blend_reformed d c :
  equiv (bound (add d (mul (sub c d) (Fin 0))) d) d.
Proof.
  destruct d as [a| | |], c as [b| | |]; try reflexivity.
  unfold bound. cbn [sub neg add mul isFinite negb orb Math_abs].
  destruct (gt _ (Fin 200)); [reflexivity|]. cbn [equiv]. ring.
Qed.

Lemma breath_reformed a c s :
  s = NaN ∨ within (-1) 1 s ->
  exists z, bound (add (add (Fin a) (mul (sub c (Fin a)) (Fin 0)))
                     (mul s (Fin 0.05))) (Fin a) = Fin z
            ∧ a - 0.05 <= z ∧ z <= a + 0.05.
Proof.
  intros Hs.
  assert (exists p0, (add (Fin a) (mul (sub c (Fin a)) (Fin 0)) = NaN
                      ∨ (add (Fin a) (mul (sub c (Fin a)) (Fin 0)) = Fin p0
                         ∧ p0 == a))) as (p0 & Hp0).
  { destruct c as [b| | |]; cbn [sub neg add mul].
    - exists (a + (b + - a) * 0). right. split; [done | ring].
    - exists 0. by left.
    - exists 0. by left.
    - exists 0. by left. }
  destruct Hp0 as [-> | [-> Hp0]].
  { exists a. split; [by destruct s|]. split; lra. }
  destruct Hs as [-> | (q & -> & Hq0 & Hq1)].
  { exists a. split; [done|]. split; lra. }
  cbn [mul add]. unfold bound. cbn [isFinite negb orb].
  destruct (gt _ (Fin 200)).
  - exists a. split; [done|]. split; lra.
  - eexists. split; [reflexivity|]. split; lra.
Qed.

(** X14: in the reformed state (progress 0) every particle is written at its
    image target on the x and y axes, and within 0.05 of it in depth. *)
Theorem reformed_positions data N st bufs f n i
    (Hsin : sin_in_range)
    (Hwf : well_formed data N)
    (Hbuf : length (workingPositions bufs) = (3 * N)%nat)
    (Hrest : transitionProgress (advance st f) = Fin 0)
    (Hi : (i < N)%nat) :
  let out := workingPositions (snd (after data st bufs f n)) in
  (exists px, out !! (i * 3)%nat = Some px
              ∧ equiv px (get (targetTree data) (i * 3)))
  ∧ (exists py, out !! (i * 3 + 1)%nat = Some py
                ∧ equiv py (get (targetTree data) (i * 3 + 1)))
  ∧ (forall dz, get (targetTree data) (i * 3 + 2) = Fin dz ->
       exists pz, out !! (i * 3 + 2)%nat = Some (Fin pz)
                  ∧ dz - 0.05 <= pz ∧ pz <= dz + 0.05).
Proof.
  intros out. destruct Hwf as (Hp & _).
  assert (forall k, (k < 3)%nat ->
            out !! (i * 3 + k)%nat
            = Some (component k
                      (written_position data (advance st f) (Fin 0) (time f) n i)))
    as Hout.
  { intros k Hk. unfold out.
    rewrite (after_positions_lookup data N) by (done || lia).
    destruct (index_join i k Hk) as [-> ->].
    unfold smoothT_of. rewrite Hrest. reflexivity. }
  pose proof (Hout 0%nat ltac:(lia)) as H0. rewrite Nat.add_0_r in H0.
  pose proof (Hout 1%nat ltac:(lia)) as H1.
  pose proof (Hout 2%nat ltac:(lia)) as H2.
  rewrite written_bound in H0, H1, H2. unfold computed_position in H0, H1, H2.
  rewrite motion_reformed in H0, H1, H2.
  cbv zeta in H0, H1, H2. cbn [component fst snd] in H0, H1, H2.
  split; [|split].
  - eexists. split; [exact H0 | apply blend_reformed].
  - eexists. split; [exact H1 | apply blend_reformed].
  - intros dz Hdz. rewrite Hdz in H2.
    destruct (breath_reformed dz (get (targetCloud data) (i * 3 + 2))
                (Math_sin (add (mul (time f) (Fin 1.5))
                             (mul (get (targetTree data) (i * 3)) (Fin 0.5)))))
      as (z & Hz & Hz0 & Hz1); [apply Hsin|].
    exists z. rewrite H2, Hz. done.
Qed.

End Particles.

Lemma vortex_advances_witness :
  let st := {| transitionProgress := Fin 1; swayX := Fin 0; swayY := Fin 0;
               vortexAngle := Fin 2; velocity := Fin 1.5;
               prevHandX := Fin 0.4; prevHandY := Fin 0.6;
               wasDetected := true |} in
  let f := {| delta := Fin 0.016; time := Fin 1; hand := TestData.no_hand;
              currentGesture := OPEN_PALM |} in
  exists a', vortexAngle (advance (H := TestHost.host) st f) = Fin a' ∧ 2 <= a'.
Proof.
  intros st f.
  destruct (vortex_advances (H := TestHost.host) st f 2 eq_refl eq_refl)
    as (a' & Ha & Hlo & _).
  exists a'. split; [exact Ha | exact Hlo].
Defined.

Lemma no_velocity_spike_witness :
  let st := {| transitionProgress := Fin 1; swayX := Fin 0; swayY := Fin 0;
               vortexAngle := Fin 2; velocity := Fin 1.5;
               prevHandX := Fin 0.4; prevHandY := Fin 0.6;
               wasDetected := false |} in
  let f := {| delta := Fin 0.016; time := Fin 1;
              hand := {| gesture := OPEN_PALM; x := Fin 0.9; y := Fin 0.1;
                         isDetected := true |};
              currentGesture := OPEN_PALM |} in
  exists v', velocity (advance (H := TestHost.host) st f) = Fin v' ∧ v' <= 1.5.
Proof.
  intros st f.
  destruct (no_velocity_spike (H := TestHost.host) st f)
    as (_ & v & v' & Hv & Hv' & _ & Hle).
  - right. exists 1.5. split; [reflexivity|]. split; lra.
  - reflexivity.
  - right. reflexivity.
  - exists v'. split; [exact Hv'|]. injection Hv as <-. exact Hle.
Defined.

Lemma bounded_sin_in_range : sin_in_range (H := BoundedHost.host).
Proof.
  intros v. cbn [Math_sin BoundedHost.host]. unfold BoundedHost.clamp.
  destruct (TestHost.sin v) as [q| | |]; try (by left). right.
  destruct (Qltb q (-1)) eqn:E1.
  { exists (-1). split; [done|]. split; lra. }
  destruct (Qltb 1 q) eqn:E2.
  { exists 1. split; [done|]. split; lra. }
  apply Qltb_ge in E1, E2. exists q. done.
Qed.

Lemma reformed_positions_witness :
  let f := {| delta := Fin 0.016; time := Fin 2; hand := TestData.no_hand;
              currentGesture := CLOSED_FIST |} in
  let out := workingPositions
               (snd (after (H := BoundedHost.host) TestData.cloud initial
                       (clone TestData.cloud) f 0%nat)) in
  exists px, out !! 3%nat = Some px ∧ equiv px (Fin 1).
Proof.
  intros f out.
  exact (proj1 (reformed_positions (H := BoundedHost.host) TestData.cloud 2%nat
                  initial (clone TestData.cloud) f 0%nat 1%nat
                  bounded_sin_in_range
                  ltac:(repeat split) eq_refl eq_refl ltac:(lia))).
Defined.

Lemma sizes_scaled_witness :
  let f := {| delta := Fin 0.016; time := Fin 2; hand := TestData.no_hand;
              currentGesture := OPEN_PALM |} in
  exists w, workingSizes
              (snd (after (H := TestHost.host) TestData.cloud initial
                      (clone TestData.cloud) f 0%nat)) !! 1%nat = Some (Fin w)
            ∧ w == 0.
Proof.
  intros f.
  destruct (sizes_scaled (H := TestHost.host) TestData.cloud 2%nat initial
              (clone TestData.cloud) f 0%nat 1%nat 0
              ltac:(repeat split) eq_refl eq_refl) as (w & Hw & Hz & _).
  exists w. split; [exact Hw|]. apply Hz. reflexivity.
Defined.

Lemma sparkle_bounded_witness :
  let f := {| delta := Fin 0.016; time := Fin 2; hand := TestData.no_hand;
              currentGesture := OPEN_PALM |} in
  let out := workingColors
               (snd (after (H := TestHost.host) TestData.cloud initial
                       (clone TestData.cloud) f 0%nat)) in
  triple out 1 = triple (colors TestData.cloud) 1.
Proof.
  intros f out.
  apply (sparkle_bounded (H := TestHost.host) TestData.cloud 2%nat initial
           (clone TestData.cloud) f 0%nat ltac:(repeat split) eq_refl);
    [lia | discriminate].
Defined.

Lemma positions_in_bounds_witness :
  let f := {| delta := Fin 0.016; time := Fin 2; hand := TestData.no_hand;
              currentGesture := OPEN_PALM |} in
  Forall (fun p => le (Math_abs p) (Fin 200) = true)
    (workingPositions
       (snd (after (H := TestHost.host) TestData.cloud initial
               (clone TestData.cloud) f 0%nat))).
Proof.
  intros f.
  apply (positions_in_bounds (H := TestHost.host) TestData.cloud 2%nat initial
           (clone TestData.cloud) f 0%nat ltac:(repeat split) eq_refl).
  repeat constructor.
Defined.

End ExperienceMore.

(* ------------------------------------------------------------------------- *)
(** ** The application state *)
(* ------------------------------------------------------------------------- *)

Module AppFacts.
Import App.

Lemma after_snoc st events e : after st (events ++ [e]) = handle (after st events) e.
Proof. unfold after. by rewrite foldl_app. Qed.

(** X15: whatever the tracker reports and whatever buttons are pressed, the
    gesture and the detection flag the scene is rendered with are those of
    the hand data the integrator reads; stopping the camera leaves the
    application idle with NONE, not detected, at the centre. *)
Theorem state_follows_hand_data url events :
  let st := after (initial url) events in
  currentGesture st = gesture (handDataRef st)
  ∧ isHandDetected st = isDetected (handDataRef st)
  ∧ (forall st', let st'' := triggerCameraStop st' in
       currentGesture st'' = NONE ∧ isHandDetected st'' = false
       ∧ handDataRef st'' = {| gesture := NONE; x := JS.Fin 0.5; y := JS.Fin 0.5;
                               isDetected := false |}
       ∧ cameraStatus st'' = idle ∧ shouldStartCamera st'' = false).
Proof.
  intros st. subst st. split; [|split; [|done]].
  - induction events as [|e events IH] using rev_ind; [done|].
    rewrite after_snoc. destruct e; cbn; try done.
    case_bool_decide as Hc; done.
  - induction events as [|e events IH] using rev_ind; [done|].
    rewrite after_snoc. destruct e; cbn; try done.
    case_bool_decide as Hc; done.
Qed.

End AppFacts.

(* ------------------------------------------------------------------------- *)
(** ** Further properties of the builder *)
(* ------------------------------------------------------------------------- *)

Module GeometryMore.
Import JS Geometry ExperienceSpec GeometrySpec JSFacts GeometryFacts.
Local Open Scope Q_scope.

#[local] Arguments generateAll : simpl never.
#[local] Arguments resolve_fallback : simpl never.
#[local] Arguments for_loop : simpl never.
#[local] Arguments onload : simpl never.

Section Build.
Context `{Host}.

(** Every callback resolves with data of [generateAll], called on (0, 0)
    without a context or on the grid of the loaded image with its context. *)
Lemma handle_data (P : PointCloudData -> Prop) p e m :
  (forall m' d, fst (generateAll (Fin 0) (Fin 0) None m') = Some d -> P d) ->
  (forall iw ih c m' d,
     e = Load iw ih (Some c) -> drawImage_returns c = true ->
     fst (generateAll (grid iw ih).1 (grid iw ih).2 (Some c) m') = Some d -> P d) ->
  exists d, fst (handle p e m) = safeResolve p d ∧ P d.
Proof.
  intros H0 H1.
  assert (forall m', exists d, fst (resolve_fallback p m') = safeResolve p d ∧ P d)
    as Hfb.
  { intros m'. destruct (generateAll_fallback m') as (d & Hd & _).
    exists d. split; [|by apply (H0 m')].
    unfold resolve_fallback, bind, ret.
    destruct (generateAll (Fin 0) (Fin 0) None m') as [r m''].
    cbn [fst] in Hd |- *. by rewrite Hd. }
  destruct e as [iw ih [c|]| |]; cbn [handle].
  - unfold onload. specialize (H1 iw ih c).
    destruct (grid iw ih) as [cols rows]. cbn [fst snd] in H1.
    destruct (drawImage_returns c); [|apply Hfb].
    unfold bind. specialize (H1 m).
    destruct (generateAll cols rows (Some c) m) as [[d|] m']; [|apply Hfb].
    exists d. split; [done|]. by apply H1.
  - unfold onload. apply Hfb.
  - unfold onerror. apply Hfb.
  - unfold ontimeout. destruct (hasResolved p) eqn:E; cbn [negb]; [|apply Hfb].
    destruct (generateAll_fallback m) as (d & Hd & _).
    exists d. split; [by rewrite safeResolve_done | by apply (H0 m)].
Qed.

Lemma grid_count_le iw ih q z :
  validCount (grid iw ih).1 (grid iw ih).2 = Fin q -> q == inject_Z z ->
  (z <= 25000)%Z.
Proof.
  unfold validCount, grid. cbn [fst snd].
  destruct (Math_floor (Math_sqrt _)) as [c| | |] eqn:Ecols; cbn [gt lt andb];
    try (intros [= <-] Hq; apply (Qeq_inject_Z_le z 25000); rewrite <- Hq;
         apply Qle_refl).
  destruct (Qltb 0 c) eqn:Ec; cbn [andb];
    [|intros [= <-] Hq; apply (Qeq_inject_Z_le z 25000); rewrite <- Hq;
      apply Qle_refl].
  apply Qltb_lt in Ec.
  unfold div, PARTICLE_COUNT.
  rewrite (proj2 (Qeq_bool_false c 0)) by lra.
  cbn [Math_floor of_Z lt].
  destruct (Qltb 0 (inject_Z (Qfloor (25000 / c)))) eqn:Er;
    [|intros [= <-] Hq; apply (Qeq_inject_Z_le z 25000); rewrite <- Hq;
      apply Qle_refl].
  cbn [mul]. intros [= <-] Hq.
  pose proof (Qfloor_le (25000 / c)) as Hfl.
  assert (c * inject_Z (Qfloor (25000 / c)) <= 25000) as Hle.
  { assert (c * (25000 / c) == 25000) as Hc by (field; lra).
    assert (c * inject_Z (Qfloor (25000 / c)) <= c * (25000 / c)) as Hm
      by (apply (proj2 (Qmult_le_l _ _ c Ec)); exact Hfl).
    by rewrite Hc in Hm. }
  apply (Qeq_inject_Z_le z 25000). rewrite <- Hq. exact Hle.
Qed.

(** X16: the builder never makes more than PARTICLE_COUNT particles, and at
    least one, whatever the size of the image. *)
Theorem particle_count_capped e events m :
  exists d,
    settled (fst (generateParticlesFromImage (e :: events) pending m)) = Resolved d
    ∧ (1 <= particle_count d)%Z ∧ (particle_count d <= 25000)%Z.
Proof.
  rewrite first_event.
  destruct (handle_data
              (fun d => (1 <= particle_count d)%Z ∧ (particle_count d <= 25000)%Z)
              pending e m) as (d & -> & Hd).
  - intros m' d Hd. destruct (generateAll_fallback m') as (d' & Hd' & _ & _ & Hn).
    rewrite Hd in Hd'. injection Hd' as <-. rewrite Hn.
    change (count_of PARTICLE_COUNT) with 25000%Z. lia.
  - intros iw ih c m' d _ _ Hd.
    destruct (grid_validCount iw ih) as (q & z & Hcount & Hq & Hz).
    destruct (generateAll_count _ _ (Some c) m' q z Hcount Hq Hz)
      as (d' & Hd' & _ & Hn).
    rewrite Hd in Hd'. injection Hd' as <-. rewrite Hn.
    split; [done|]. by apply (grid_count_le iw ih q z).
  - exists d. done.
Qed.

Lemma Float32Array_new_zero len l :
  Float32Array_new len = Some l -> Forall (fun v => v = Fin 0) l.
Proof.
  destruct len as [q| | |]; simpl; try done.
  - destruct (0 <=? Qtrunc q)%Z; [|done]. intros [= <-]. by apply Forall_replicate.
  - intros [= <-]. constructor.
Qed.

Lemma allocate_zero count a :
  allocate count = Some a ->
  Forall (fun v => v = Fin 0) (a_colors a) ∧ Forall (fun v => v = Fin 0) (a_sizes a).
Proof.
  unfold allocate.
  destruct (Float32Array_new (mul count (Fin 3))) as [l3|] eqn:E3; [|done].
  destruct (Float32Array_new count) as [l1|] eqn:E1; [|done].
  cbn [mbind option_bind]. intros [= <-]. cbn [a_colors a_sizes].
  split; by eapply Float32Array_new_zero.
Qed.

Lemma byte_range (b : nat) :
  (b ≤ 255)%nat -> within 0 1 (Fin (inject_Z (Z.of_nat b) / 255)).
Proof.
  intros Hb. eexists. split; [reflexivity|].
  assert (0 <= inject_Z (Z.of_nat b)) as H0
    by (rewrite <- (Zle_Qle 0); lia).
  assert (inject_Z (Z.of_nat b) <= 255) as H1
    by (rewrite <- (Zle_Qle _ 255); lia).
  split.
  - apply Qle_shift_div_l; lra.
  - apply Qle_shift_div_r; lra.
Qed.

Lemma pixel_cases px k :
  bytes px ->
  pixel px k = NaN ∨ exists b, pixel px k = of_nat b ∧ (b ≤ 255)%nat.
Proof.
  intros Hpx. unfold pixel. destruct (index_of k) as [i|]; [|by left].
  destruct (px !! i) as [b|] eqn:E; [|by left]. right. exists b. split; [done|].
  unfold bytes in Hpx. rewrite Forall_lookup in Hpx. by apply (Hpx i).
Qed.

Lemma channel_range px k :
  bytes px -> within 0 1 (sanitize_color (div (pixel px k) (Fin 255))).
Proof.
  intros Hpx. destruct (pixel_cases px k Hpx) as [-> | (b & -> & Hb)].
  - exists 1. split; [done|]. split; lra.
  - apply (byte_range b Hb).
Qed.

Lemma image_particle_eq w h sx sy px i m :
  let col := rem (of_nat i) w in
  let row := Math_floor (div (of_nat i) w) in
  let pixelI := mul (add (mul row w) col) (Fin 4) in
  let r := div (pixel px pixelI) (Fin 255) in
  let g := div (pixel px (add pixelI (Fin 1))) (Fin 255) in
  let b := div (pixel px (add pixelI (Fin 2))) (Fin 255) in
  fst (image_particle w h sx sy px i m)
  = (mul (sub (div col w) (Fin 0.5)) sx,
     mul (sub (Fin 0.5) (div row h)) sy,
     mul (div (add (add r g) b) (Fin 3)) (Fin 3.0),
     (r, g, b),
     if lt (pixel px (add pixelI (Fin 3))) (Fin 50) then Fin 0
     else Fin (rnd m * 0.4 + 0.1)).
Proof.
  cbv zeta. unfold image_particle, bind, ret, Math_random.
  by destruct (lt _ (Fin 50)).
Qed.

Lemma shape_particle_ranges w h sx sy img i m :
  rnd_in_range -> (forall px, img = Some px -> bytes px) ->
  let out := fst (shape_particle w h sx sy img i m) in
  within 0 1 (sanitize_color out.1.2.1.1)
  ∧ within 0 1 (sanitize_color out.1.2.1.2)
  ∧ within 0 1 (sanitize_color out.1.2.2)
  ∧ within 0 0.5 out.2.
Proof.
  intros Hrnd Hpx out. subst out. unfold shape_particle.
  assert (let out := fst (fallback_particle sy m) in
          within 0 1 (sanitize_color out.1.2.1.1)
          ∧ within 0 1 (sanitize_color out.1.2.1.2)
          ∧ within 0 1 (sanitize_color out.1.2.2)
          ∧ within 0 0.5 out.2) as Hfb.
  { cbn. pose proof (Hrnd (S (S m))) as [? ?]. pose proof (Hrnd (S (S (S m)))) as [? ?].
    repeat split; eexists; (split; [reflexivity|]); split; lra. }
  destruct img as [px|]; [|exact Hfb].
  destruct (gt w (Fin 0)); [|exact Hfb].
  rewrite image_particle_eq. cbn [fst snd].
  specialize (Hpx px eq_refl).
  split; [by apply channel_range|]. split; [by apply channel_range|].
  split; [by apply channel_range|].
  destruct (lt _ (Fin 50)).
  - exists 0. split; [done|]. split; lra.
  - pose proof (Hrnd m) as [? ?]. eexists. split; [reflexivity|]. split; lra.
Qed.

Lemma fill_colors w h sx sy imgData i a m :
  let out := fst (shape_particle w h sx sy imgData i m) in
  a_colors (fst (fill w h sx sy imgData i a m))
  = set (set (set (a_colors a) (i * 3) (sanitize_color out.1.2.1.1))
           (i * 3 + 1) (sanitize_color out.1.2.1.2))
      (i * 3 + 2) (sanitize_color out.1.2.2).
Proof.
  cbv zeta. unfold fill, bind, ret.
  destruct (shape_particle w h sx sy imgData i m)
    as [[[[[dx dy] dz] [[r g] b]] size] m1].
  by destruct (generateGalaxyShape m1) as [[[gx gy] gz] m2].
Qed.

Lemma generateAll_ranges w h ctx m d :
  rnd_in_range -> (forall px, read_pixels w ctx = Some px -> bytes px) ->
  fst (generateAll w h ctx m) = Some d ->
  Forall (within 0 1) (colors d) ∧ Forall (within 0 0.5) (sizes d).
Proof.
  intros Hrnd Hpx. unfold generateAll.
  destruct (allocate (validCount w h)) as [a|] eqn:Ea; [|done].
  destruct (allocate_zero _ _ Ea) as [Hc0 Hs0].
  unfold bind, ret.
  pose proof (for_loop_invariant
                (fun _ a => Forall (within 0 1) (a_colors a)
                            ∧ Forall (within 0 0.5) (a_sizes a))
                (fill w h (mul (Fin 18) (if gt w (Fin 0) then div w h else Fin 0.6))
                   (Fin 18) (read_pixels w ctx))) as Hinv.
  specialize (Hinv ltac:(
    intros i s m' [Hc Hs]; rewrite fill_colors, fill_sizes;
    destruct (shape_particle_ranges w h
                (mul (Fin 18) (if gt w (Fin 0) then div w h else Fin 0.6))
                (Fin 18) (read_pixels w ctx) i m' Hrnd Hpx)
      as (Hr & Hg & Hb & Hsz);
    unfold set; split; repeat apply Forall_insert; done)
    (iterations (validCount w h)) 0%nat a m).
  destruct (for_loop _ _ _ _ _) as [a' m']. cbn [fst] in *.
  intros [= <-]. cbn [to_data colors sizes]. apply Hinv. split.
  - eapply Forall_impl; [exact Hc0|]. intros v ->. exists 0. split; [done|].
    split; lra.
  - eapply Forall_impl; [exact Hs0|]. intros v ->. exists 0. split; [done|].
    split; lra.
Qed.

(** X17: with draws in [0, 1) and pixel bytes at most 255, every color component
    of the cloud the promise resolves with is in [0, 1] and every size in
    [0, 0.5], on every path. *)
Theorem colors_and_sizes_in_range e events m
    (Hrnd : rnd_in_range) (Hbytes : event_bytes e) :
  exists d,
    settled (fst (generateParticlesFromImage (e :: events) pending m)) = Resolved d
    ∧ Forall (within 0 1) (colors d) ∧ Forall (within 0 0.5) (sizes d).
Proof.
  rewrite first_event.
  destruct (handle_data
              (fun d => Forall (within 0 1) (colors d)
                        ∧ Forall (within 0 0.5) (sizes d))
              pending e m) as (d & -> & Hd).
  - intros m' d Hd. apply (generateAll_ranges (Fin 0) (Fin 0) None m' d Hrnd);
      [|exact Hd]. intros px Hpx. discriminate.
  - intros iw ih c m' d -> _ Hd.
    apply (generateAll_ranges (grid iw ih).1 (grid iw ih).2 (Some c) m' d Hrnd);
      [|exact Hd].
    intros px Hpx. unfold read_pixels in Hpx. cbn [event_bytes] in Hbytes.
    destruct (gt _ (Fin 0)); [|done]. by rewrite Hpx in Hbytes.
  - exists d. done.
Qed.

(** Each particle of the cloud holds the color and the size the loop body
    computed for it, for some number of draws made before. *)
Lemma generateAll_each w h ctx m q z d i :
  validCount w h = Fin q -> q == inject_Z z -> (1 <= z)%Z ->
  fst (generateAll w h ctx m) = Some d -> (i < Z.to_nat z)%nat ->
  exists m',
    let out := fst (shape_particle w h
                      (mul (Fin 18) (if gt w (Fin 0) then div w h else Fin 0.6))
                      (Fin 18) (read_pixels w ctx) i m') in
    (forall k, (k < 3)%nat ->
       colors d !! (i * 3 + k)%nat
       = Some (sanitize_color (component k out.1.2)))
    ∧ sizes d !! i = Some out.2.
Proof.
  intros Hcount Hq Hz. unfold generateAll. rewrite Hcount.
  destruct (allocate_int q z Hq) as (a & -> & Hok & _); [lia|].
  unfold bind, ret. rewrite (iterations_int q z Hq).
  set (N := Z.to_nat z) in *.
  set (sx := mul (Fin 18) (if gt w (Fin 0) then div w h else Fin 0.6)).
  set (body := fill w h sx (Fin 18) (read_pixels w ctx)).
  set (out := fun i m' => fst (shape_particle w h sx (Fin 18) (read_pixels w ctx) i m')).
  pose proof (for_loop_invariant
                (fun k a =>
                   length (a_colors a) = (3 * N)%nat ∧ length (a_sizes a) = N
                   ∧ forall i, (i < k)%nat -> (i < N)%nat ->
                       exists m',
                         (forall kk, (kk < 3)%nat ->
                            a_colors a !! (i * 3 + kk)%nat
                            = Some (sanitize_color (component kk (out i m').1.2)))
                         ∧ a_sizes a !! i = Some (out i m').2)
                body) as Hinv.
  match type of Hinv with
  | ?A -> _ => assert A as Hstep; [|specialize (Hinv Hstep N 0%nat a m)]
  end.
  { intros i0 s m' (Hlc & Hls & Hall). unfold body.
    rewrite fill_colors, fill_sizes. fold (out i0 m').
    change (set (set (set (a_colors s) (i0 * 3) ?x) (i0 * 3 + 1) ?y) (i0 * 3 + 2) ?v)
      with (Experience.setXYZ (a_colors s) i0 (x, y, v)).
    rewrite ExperienceFacts.setXYZ_length. unfold set at 1 2.
    rewrite length_insert. split; [done|]. split; [done|].
    intros i1 Hi1 Hi1N. destruct (decide (i1 = i0)) as [-> | Hne].
    - exists m'. split.
      + intros kk Hkk. rewrite ExperienceFacts.setXYZ_lookup by lia.
        cbn [fst snd]. repeat case_decide; try lia.
        * replace kk with 0%nat by lia. done.
        * replace kk with 1%nat by lia. done.
        * replace kk with 2%nat by lia. done.
      + apply list_lookup_insert_eq. lia.
    - destruct (Hall i1) as (m1 & Hcol & Hsz); [lia | done |].
      exists m1. split.
      + intros kk Hkk. rewrite ExperienceFacts.setXYZ_lookup by lia.
        repeat case_decide; try lia. by apply Hcol.
      + rewrite list_lookup_insert_ne by done. exact Hsz. }
  destruct (for_loop _ _ _ _ _) as [a' m']. cbn [fst] in *.
  intros [= <-] Hi. cbn [to_data colors sizes].
  destruct Hinv as (_ & _ & Hall).
  - destruct Hok as (_ & _ & _ & Hlc & Hls & _). split; [done|]. split; [done|].
    intros; lia.
  - destruct (Hall i) as (m1 & Hcol & Hsz); [lia | done |]. exists m1. done.
Qed.

Lemma Qtrunc_nonneg q : 0 <= q -> Qtrunc q = Qfloor q.
Proof. intros Hq. unfold Qtrunc. by rewrite (proj2 (Qle_bool_iff 0 q) Hq). Qed.

(** Particle [i] of a grid of [zc] columns reads the pixel at byte [4 * i]. *)
Lemma pixel_index zc (i : nat) :
  (0 < zc)%Z ->
  exists q,
    mul (add (mul (Math_floor (div (of_nat i) (of_Z zc))) (of_Z zc))
           (rem (of_nat i) (of_Z zc))) (Fin 4) = Fin q
    ∧ q == inject_Z (Z.of_nat (4 * i)).
Proof.
  intros Hzc. unfold of_nat, of_Z, div, rem.
  assert (0 < inject_Z zc) as Hpos by (rewrite <- (Zlt_Qlt 0); lia).
  rewrite (proj2 (Qeq_bool_false (inject_Z zc) 0)) by lra.
  cbn [Math_floor of_Z mul add].
  assert (0 <= inject_Z (Z.of_nat i) / inject_Z zc) as Hdiv.
  { apply Qle_shift_div_l; [done|].
    assert (0 <= inject_Z (Z.of_nat i)) by (rewrite <- (Zle_Qle 0); lia). lra. }
  rewrite (Qtrunc_nonneg _ Hdiv).
  eexists. split; [reflexivity|].
  rewrite Nat2Z.inj_mul, inject_Z_mult. simpl (Z.of_nat 4). ring.
Qed.

Lemma index_of_int q (n : nat) :
  q == inject_Z (Z.of_nat n) -> index_of (Fin q) = Some n.
Proof.
  intros Hq. unfold index_of.
  assert (Qfloor q = Z.of_nat n) as -> by (rewrite Hq; apply Qfloor_Z).
  rewrite (proj2 (Qeq_bool_iff _ _) Hq).
  rewrite (proj2 (Z.leb_le 0 (Z.of_nat n))) by lia.
  cbn [andb]. by rewrite Nat2Z.id.
Qed.

Lemma pixel_at px q (n b : nat) :
  q == inject_Z (Z.of_nat n) -> px !! n = Some b -> pixel px (Fin q) = of_nat b.
Proof. intros Hq Hb. unfold pixel. by rewrite (index_of_int q n Hq), Hb. Qed.

(** X18: a loaded image that is drawn and read: particle [i] of the cloud takes
    its color from bytes [4i], [4i + 1], [4i + 2] of the pixel data, each
    divided by 255, and its size from byte [4i + 3]: size 0 below 50, a size
    of 0.1 plus a draw times 0.4 otherwise.  The cloud has one particle for
    each cell of the grid. *)
Theorem pixels_to_particles iw ih c px zc zr p m i
    (Hdraw : drawImage_returns c = true)
    (Hread : getImageData c = Some px)
    (Hgrid : grid iw ih = (of_Z zc, of_Z zr))
    (Hzc : (0 < zc)%Z) (Hzr : (0 < zr)%Z)
    (Hi : (Z.of_nat i < zc * zr)%Z) :
  exists d,
    fst (onload iw ih (Some c) p m) = safeResolve p d
    ∧ particle_count d = (zc * zr)%Z
    ∧ (forall k b, (k < 3)%nat -> px !! (4 * i + k)%nat = Some b ->
         colors d !! (i * 3 + k)%nat = Some (Fin (inject_Z (Z.of_nat b) / 255)))
    ∧ (forall alpha, px !! (4 * i + 3)%nat = Some alpha ->
         ((alpha < 50)%nat -> sizes d !! i = Some (Fin 0))
         ∧ ((50 ≤ alpha)%nat ->
            exists n, sizes d !! i = Some (Fin (rnd n * 0.4 + 0.1)))).
Proof.
  assert (gt (of_Z zc) (Fin 0) = true) as Hgc by (by apply gt_of_Z).
  assert (gt (of_Z zr) (Fin 0) = true) as Hgr by (by apply gt_of_Z).
  assert (validCount (of_Z zc) (of_Z zr) = Fin (inject_Z zc * inject_Z zr))
    as Hcount by (unfold validCount; by rewrite Hgc, Hgr).
  assert (inject_Z zc * inject_Z zr == inject_Z (zc * zr)) as Hq
    by (by rewrite inject_Z_mult).
  destruct (generateAll_count (of_Z zc) (of_Z zr) (Some c) m _ _ Hcount Hq)
    as (d & Hd & _ & Hn); [nia|].
  exists d. split; [|split; [exact Hn|]].
  { unfold onload. rewrite Hgrid, Hdraw. unfold bind.
    destruct (generateAll (of_Z zc) (of_Z zr) (Some c) m) as [r m'].
    cbn [fst] in Hd. by rewrite Hd. }
  destruct (generateAll_each (of_Z zc) (of_Z zr) (Some c) m _ _ d i Hcount Hq)
    as (m' & Hcol & Hsz); [nia | exact Hd | nia |].
  cbv zeta in Hcol, Hsz. unfold read_pixels, shape_particle in Hcol, Hsz.
  rewrite Hgc, Hread in Hcol, Hsz. rewrite image_particle_eq in Hcol, Hsz.
  cbn [fst snd] in Hcol, Hsz.
  destruct (pixel_index zc i Hzc) as (q & Hpix & Hq4).
  rewrite Hpix in Hcol, Hsz. cbn [add] in Hcol, Hsz.
  assert (forall k : nat, q + inject_Z (Z.of_nat k) == inject_Z (Z.of_nat (4 * i + k)))
    as Hqk by (intros k; rewrite Hq4, <- inject_Z_plus, <- Nat2Z.inj_add; reflexivity).
  split.
  - intros k b Hk Hb. rewrite (Hcol k Hk).
    assert (component k
              (div (pixel px (Fin q)) (Fin 255),
               div (pixel px (Fin (q + 1))) (Fin 255),
               div (pixel px (Fin (q + 2))) (Fin 255))
            = Fin (inject_Z (Z.of_nat b) / 255)) as ->; [|done].
    destruct k as [|[|[|k]]]; try lia; cbn [component fst snd].
    + rewrite (pixel_at px q (4 * i) b); [done | done |].
      by rewrite Nat.add_0_r in Hb.
    + rewrite (pixel_at px (q + 1) (4 * i + 1) b); [done | apply (Hqk 1%nat) | done].
    + rewrite (pixel_at px (q + 2) (4 * i + 2) b); [done | apply (Hqk 2%nat) | done].
  - intros alpha Ha.
    rewrite (pixel_at px (q + 3) (4 * i + 3) alpha) in Hsz;
      [| apply (Hqk 3%nat) | done].
    unfold of_nat, of_Z in Hsz. cbn [lt] in Hsz. split.
    + intros Hlt. rewrite Hsz.
      rewrite (proj2 (Qltb_lt _ _)); [done|].
      rewrite <- (Zlt_Qlt _ 50). lia.
    + intros Hge. exists m'. rewrite Hsz.
      rewrite (proj2 (Qltb_ge _ _)); [done|].
      rewrite <- (Zle_Qle 50). lia.
Qed.

End Build.

Lemma pixels_to_particles_witness :
  let readable := {| drawImage_returns := true;
                     getImageData := Some [255; 128; 0; 20]%nat |} in
  exists d,
    fst (onload (H := TestHost.host) 100 100 (Some readable) pending 0%nat)
    = safeResolve pending d
    ∧ particle_count d = (158 * 158)%Z
    ∧ colors d !! 1%nat = Some (Fin (inject_Z (Z.of_nat 128) / 255))
    ∧ sizes d !! 0%nat = Some (Fin 0).
Proof.
  intros readable.
  destruct (pixels_to_particles (H := TestHost.host) 100 100 readable
              [255; 128; 0; 20]%nat 158 158 pending 0%nat 0%nat
              eq_refl eq_refl)
    as (d & Hd & Hn & Hcol & Hsz).
  - vm_compute. reflexivity.
  - lia.
  - lia.
  - lia.
  - exists d. split; [exact Hd|]. split; [exact Hn|]. split.
    + apply (Hcol 1%nat 128%nat); [lia | reflexivity].
    + apply (Hsz 20%nat); [reflexivity | lia].
Defined.

Lemma test_draws_in_range : rnd_in_range (H := TestHost.host).
Proof.
  intros n. cbn [rnd TestHost.host]. unfold TestHost.draws.
  pose proof (Z.mod_pos_bound (Z.of_nat n * 7919 + 13) 1000 ltac:(lia)) as [H0 H1].
  remember ((Z.of_nat n * 7919 + 13) mod 1000)%Z as r eqn:Hr. clear Hr.
  assert (0 <= inject_Z r) by (rewrite <- (Zle_Qle 0); lia).
  assert (inject_Z r < 1000) by (rewrite <- (Zlt_Qlt _ 1000); lia).
  split.
  - apply Qle_shift_div_l; lra.
  - apply Qlt_shift_div_r; lra.
Qed.

Lemma colors_and_sizes_in_range_witness :
  let readable := {| drawImage_returns := true;
                     getImageData := Some [255; 128; 0; 255]%nat |} in
  exists d,
    settled (fst (generateParticlesFromImage (H := TestHost.host)
                    [Load 1 1 (Some readable); Timeout] pending 0%nat))
    = Resolved d
    ∧ Forall (within 0 1) (colors d).
Proof.
  intros readable.
  destruct (colors_and_sizes_in_range (H := TestHost.host)
              (Load 1 1 (Some readable)) [Timeout] 0%nat test_draws_in_range)
    as (d & Hd & Hc & _).
  - cbn. unfold bytes. repeat constructor; lia.
  - exists d. split; [exact Hd | exact Hc].
Defined.

End GeometryMore.
